(** * django-realtime-api: the subscription and broadcast core

    A shallow embedding of [realtime_api/utils.py], [realtime_api/signals.py]
    and [realtime_api/consumers.py].  Python objects that are mutated in
    place ([self], the channel layer, the database table) are threaded
    through explicitly; exceptions are values of [Res].  Collaborators that
    live outside the package (the DRF view with its queryset, permission
    classes, serializer and parser, and the JSON decoder) are fields of the
    [View] record or section variables. *)

From stdpp Require Import base strings list gmap sets pretty.

Set Warnings "-register-all,-clear-no-such-hyp".

Open Scope string_scope.

(** ** Python values *)

Module Py.

(** The scalar values a primary key can hold. *)
Inductive Val :=
| VNone
| VInt (z : Z)
| VStr (s : string).

(** ['{}'.format(v)] *)
Definition format (v : Val) : string :=
  match v with
  | VNone => "None"
  | VInt z => pretty z
  | VStr s => s
  end.

(** Truth value of [v] in a boolean context. *)
Definition truthy (v : Val) : bool :=
  match v with
  | VNone => false
  | VInt z => negb (Z.eqb z 0)
  | VStr s => negb (String.eqb s EmptyString)
  end.

Definition Val_eqb (a b : Val) : bool :=
  match a, b with
  | VNone, VNone => true
  | VInt x, VInt y => Z.eqb x y
  | VStr x, VStr y => String.eqb x y
  | _, _ => false
  end.

(** [a or b] *)
Definition or_ (a b : Val) : Val := if truthy a then a else b.

(** Decoded JSON documents, also used for what is handed to [json.dumps]
    and to the renderer. *)
Inductive JVal :=
| JNull
| JBool (b : bool)
| JInt (z : Z)
| JStr (s : string)
| JList (l : list JVal)
| JDict (d : list (string * JVal)).

Definition to_json (v : Val) : JVal :=
  match v with
  | VNone => JNull
  | VInt z => JInt z
  | VStr s => JStr s
  end.

(** [d.get(k)] on a dict kept as an association list. *)
Fixpoint dict_get (k : string) (d : list (string * JVal)) : option JVal :=
  match d with
  | [] => None
  | (k', v) :: d' => if String.eqb k k' then Some v else dict_get k d'
  end.

Definition slash : Ascii.ascii :=
  Ascii.Ascii true true true true false true false false.

(** [s.split(sep)] for a one-character separator. *)
Fixpoint split (sep : Ascii.ascii) (s : string) : list string :=
  match s with
  | EmptyString => [EmptyString]
  | String c s' =>
      if Ascii.eqb c sep then EmptyString :: split sep s'
      else match split sep s' with
           | [] => [String c EmptyString]
           | w :: ws => String c w :: ws
           end
  end.

(** The exceptions the package raises or lets through. *)
Inductive Exc :=
| MethodNotAllowed (detail : string)
| NotFound (detail : string)
| ValidationError (detail : JVal)
| ParseError (detail : string)
| PermissionDenied
| NotImplementedError
| AssertionError (msg : string)
| AttributeError
| IndexError
| KeyError
| TypeError
| ValueError
| JSONDecodeError
| ObjectDoesNotExist
| OtherError (name : string).

Inductive Res (A : Type) :=
| Ok (a : A)
| Raise (e : Exc).
Arguments Ok {A} a.
Arguments Raise {A} e.

End Py.
Export Py.

(** ** Users and the channel layer *)

(** A user object as far as the package looks at it: its [pk]. *)
Record User := mkUser { user_pk : Val }.

(** [django.contrib.auth.models.AnonymousUser]: its [pk] is [None]. *)
Definition AnonymousUser : User := mkUser VNone.

(** Messages travelling through the channel layer. *)
Inductive LayerMsg :=
| ApiSend (text : JVal)            (* {'type': 'api.send', 'text': ...} *)
| WebsocketDisconnect (code : Z).  (* {'type': 'websocket.disconnect', 'code': ...} *)

(** What can be observed of a run: calls made to the channel layer, what the
    layer hands to each member channel, and frames written to a socket. *)
Inductive Event :=
| GroupAdd (group channel : string)
| GroupDiscard (group channel : string)
| GroupSend (group : string) (msg : LayerMsg)
| Deliver (channel : string) (msg : LayerMsg)
| Send (channel : string) (text : JVal).

Definition Fields := list (string * JVal).

(** A table row: primary key and column values. *)
Definition Row := (Val * Fields)%type.

Record World := mkWorld {
  rows : list Row;                      (* the model's table *)
  next_pk : Z;                          (* the table's id sequence *)
  members : gmap string (gset string);  (* channel layer: group -> channels *)
  log : list Event;
}.

Definition emit (e : Event) (w : World) : World :=
  mkWorld (rows w) (next_pk w) (members w) (log w ++ [e]).

Definition group_members (g : string) (w : World) : gset string :=
  default ∅ (members w !! g).

Module Layer.

(** [channel_layer.group_add(group, channel)] *)
Definition group_add (g ch : string) (w : World) : World :=
  emit (GroupAdd g ch)
    (mkWorld (rows w) (next_pk w)
       (<[g := group_members g w ∪ {[ch]}]> (members w)) (log w)).

(** [channel_layer.group_discard(group, channel)] *)
Definition group_discard (g ch : string) (w : World) : World :=
  emit (GroupDiscard g ch)
    (mkWorld (rows w) (next_pk w)
       (<[g := group_members g w ∖ {[ch]}]> (members w)) (log w)).

(** [channel_layer.group_send(group, message)]: every channel that is in
    the group at the time of the call gets the message. *)
Definition group_send (g : string) (msg : LayerMsg) (w : World) : World :=
  foldl (λ w' ch, emit (Deliver ch msg) w') (emit (GroupSend g msg) w)
    (elements (group_members g w)).

End Layer.

(** ** realtime_api/utils.py *)

Module Utils.

Definition get_group_user_key (pk : Val) : string :=
  ".user" +:+ Py.format pk.

Definition close_user_channels (pk : Val) (w : World) : World :=
  Layer.group_send (get_group_user_key pk) (WebsocketDisconnect 3) w.

End Utils.

(** ** realtime_api/signals.py *)

Module Signals.

(** Receiver of [user_logged_in]. *)
Definition close_sockets_after_login (w : World) : World :=
  Utils.close_user_channels (Py.or_ (user_pk AnonymousUser) (VStr EmptyString)) w.




End Signals.

(** ** GroupUserConsumer *)

(** The Channels consumer of one connection: its scope, its channel name and
    the list of groups the transport joins on connect and leaves on
    disconnect. *)
Record Socket := mkSocket {
  scope_user : option User;   (* scope.get('user') *)
  scope_path : string;        (* scope['path'] *)
  channel_name : string;
  sock_groups : list string;
}.

Module GroupUserConsumer.

(** [getattr(self.scope.get('user'), 'pk', '')]: the default is taken only
    when there is no user object to carry the attribute. *)
Definition scope_user_pk (s : Socket) : Val :=
  match scope_user s with
  | None => VStr EmptyString
  | Some u => user_pk u
  end.

(** The inherited [websocket_connect] of Channels joins every name in
    [self.groups]. *)
Definition super_websocket_connect (s : Socket) (w : World) : World :=
  foldl (λ w' g, Layer.group_add g (channel_name s) w') w (sock_groups s).

Definition websocket_connect (s : Socket) (w : World) : Socket * World :=
  let s' := mkSocket (scope_user s) (scope_path s) (channel_name s)
              (sock_groups s ++ [Utils.get_group_user_key (scope_user_pk s)]) in
  (s', super_websocket_connect s' w).

End GroupUserConsumer.

(** ** Models, instances and the collaborating view *)

(** A model class: one declared by the project, or the proxy subclass
    [ImmediateBroadcast<name>] that [get_serializer_class] derives from it
    with the class attribute [signal_broadcast = False]. *)
Inductive ModelClass :=
| Model (name : string)
| ImmediateBroadcast (name : string).

Definition ModelClass_eqb (a b : ModelClass) : bool :=
  match a, b with
  | Model x, Model y => String.eqb x y
  | ImmediateBroadcast x, ImmediateBroadcast y => String.eqb x y
  | _, _ => false
  end.

Record Instance := mkInstance {
  i_class : ModelClass;
  pk : Val;
  fields : Fields;
  signal_broadcast_attr : option bool;  (* instance attribute, when assigned *)
}.

(** [getattr(instance, 'signal_broadcast', True)] *)
Definition signal_broadcast (i : Instance) : bool :=
  match signal_broadcast_attr i with
  | Some b => b
  | None =>
      match i_class i with
      | ImmediateBroadcast _ => false
      | Model _ => true
      end
  end.

Definition set_signal_broadcast (i : Instance) (b : bool) : Instance :=
  mkInstance (i_class i) (pk i) (fields i) (Some b).

Definition set_pk (i : Instance) (v : Val) : Instance :=
  mkInstance (i_class i) v (fields i) (signal_broadcast_attr i).

Definition set_fields (i : Instance) (f : Fields) : Instance :=
  mkInstance (i_class i) (pk i) f (signal_broadcast_attr i).

(** The [DummyRequest] built by [get_request]. *)
Record Request := mkRequest {
  req_user : option User;
  req_method : string;
}.

(** A DRF permission object; [None] stands for a call that raised. *)
Record Permission := mkPermission {
  has_permission : Request → option bool;
  has_object_permission : Request → option Instance → option bool;
}.

(** How the view defines a [perform_*] method: inherited from the DRF mixin
    (which calls [serializer.save()] and returns nothing), overridden
    returning what it saved ([return serializer.save()]), or overridden
    without a return value. *)
Inductive ViewPerform :=
| NotOverridden
| OverriddenReturns
| OverriddenNoReturn.

(** The view the consumer class points to, with the collaborators reached
    through it. *)
Record View := mkView {
  queryset_model : string;            (* view.queryset.model *)
  serializer_meta_model : string;     (* serializer.Meta.model *)
  has_attr : string → bool;           (* hasattr(view, name) *)
  (* get_queryset().get(<lookup_field>=value) *)
  queryset_get : string → string → list Row → Res Row;
  (* get_queryset().filter(<filter_dict as keywords>) *)
  queryset_filter : gmap string JVal → list Row → Res (list Row);
  get_permissions : list Permission;
  (* serializer.is_valid(): validated data, or the errors *)
  validate : option Instance → bool → JVal → Fields + JVal;
  (* serializer(obj).data *)
  to_representation : Instance → JVal;
  (* parser.parse(io.BytesIO(data)).get('payload') *)
  parse_payload : string → Res JVal;
  view_perform_create : ViewPerform;
  view_perform_update : ViewPerform;
  view_perform_destroy : ViewPerform;
}.

(** Class attributes of a consumer class. *)
Record ConsumerClass := mkClass {
  view : View;
  stream : string;
  model : option string;
  allowed_actions : list string;
  lookup_field : string;
  subscription_field_mapping : gmap string string;
  field_names : list string;   (* set by get_serializer_class *)
}.

(** Attributes of a consumer instance. *)
Record Consumer := mkConsumer {
  cls : ConsumerClass;
  immediate_broadcast : bool;
  user : option User;
  consumer : option string;    (* channel name of self.consumer, if any *)
  _ignore_view : list string;
  groups : gset string;
  action : option string;
  url : list string;
  object : option Instance;
  data : string;
}.

Definition SUBSCRIBE := "subscribe".
Definition UNSUBSCRIBE := "unsubscribe".
Definition CREATE := "create".
Definition UPDATE := "update".
Definition DELETE := "delete".

(** ** The state and error monad of consumer methods *)

Definition M (A : Type) : Type := Consumer → World → Res A * Consumer * World.

#[global] Instance M_ret : MRet M := λ A a self w, (Ok a, self, w).

#[global] Instance M_bind : MBind M := λ A B f m self w,
  match m self w with
  | (Ok a, self', w') => f a self' w'
  | (Raise e, self', w') => (Raise e, self', w')
  end.

Definition raise {A} (e : Exc) : M A := λ self w, (Raise e, self, w).
Definition get_self : M Consumer := λ self w, (Ok self, self, w).
Definition put_self (s : Consumer) : M unit := λ _ w, (Ok tt, s, w).
Definition get_world : M World := λ self w, (Ok w, self, w).
Definition put_world (w : World) : M unit := λ self _, (Ok tt, self, w).
Definition lift_world (f : World → World) : M unit := λ self w, (Ok tt, self, f w).

(** [try: m except Exception as e: h(e)] *)
Definition try_except {A} (m : M A) (h : Exc → M A) : M A := λ self w,
  match m self w with
  | (Raise e, self', w') => h e self' w'
  | r => r
  end.

(** [try: m finally: c] *)
Definition finally {A} (m : M A) (c : M unit) : M A := λ self w,
  match m self w with
  | (r, self', w') =>
      match c self' w' with
      | (Ok _, self'', w'') => (r, self'', w'')
      | (Raise e, self'', w'') => (Raise e, self'', w'')
      end
  end.

(** [for x in l: f(x)] *)
Fixpoint for_each {A} (l : list A) (f : A → M unit) : M unit :=
  match l with
  | [] => mret tt
  | x :: l' => f x ;; for_each l' f
  end.

(** Runs [m] on another consumer object, which is dropped afterwards. *)
Definition run_as {A} (s : Consumer) (m : M A) : M A := λ self w,
  match m s w with
  | (r, _, w') => (r, self, w')
  end.

Definition set_groups (g : gset string) (s : Consumer) : Consumer :=
  mkConsumer (cls s) (immediate_broadcast s) (user s) (consumer s)
    (_ignore_view s) g (action s) (url s) (object s) (data s).

Definition set_action (a : option string) (s : Consumer) : Consumer :=
  mkConsumer (cls s) (immediate_broadcast s) (user s) (consumer s)
    (_ignore_view s) (groups s) a (url s) (object s) (data s).

Definition set_url (u : list string) (s : Consumer) : Consumer :=
  mkConsumer (cls s) (immediate_broadcast s) (user s) (consumer s)
    (_ignore_view s) (groups s) (action s) u (object s) (data s).

Definition set_object (o : option Instance) (s : Consumer) : Consumer :=
  mkConsumer (cls s) (immediate_broadcast s) (user s) (consumer s)
    (_ignore_view s) (groups s) (action s) (url s) o (data s).

Definition set_data (d : string) (s : Consumer) : Consumer :=
  mkConsumer (cls s) (immediate_broadcast s) (user s) (consumer s)
    (_ignore_view s) (groups s) (action s) (url s) (object s) d.

Definition modify_self (f : Consumer → Consumer) : M unit :=
  λ self w, (Ok tt, f self, w).

(** ** SelfContainedAPIConsumer *)

Module SelfContainedAPIConsumer.

Definition dquote : string :=
  String (Ascii.Ascii false true false false false true false false) EmptyString.

Definition upper_ascii (c : Ascii.ascii) : Ascii.ascii :=
  let n := Ascii.nat_of_ascii c in
  if Nat.leb 97 n && Nat.leb n 122 then Ascii.ascii_of_nat (n - 32) else c.

(** [s.upper()] *)
Fixpoint upper (s : string) : string :=
  match s with
  | EmptyString => EmptyString
  | String c s' => String (upper_ascii c) (upper s')
  end.

Definition _action_mapping (a : string) : option (list string) :=
  if String.eqb a SUBSCRIBE then Some ["get"]
  else if String.eqb a UNSUBSCRIBE then Some ["get"]
  else if String.eqb a CREATE then Some ["post"]
  else if String.eqb a UPDATE then Some ["put"; "patch"]
  else if String.eqb a DELETE then Some ["delete"]
  else None.

(** [cls.model or cls.view.queryset.model] *)
Definition get_model (c : ConsumerClass) : ModelClass :=
  Model (default (queryset_model (view c)) (model c)).

(** For a class that keeps the [perform_*] methods of this base class, the
    result is the set of methods the view does not override. *)
Definition discover_perform_methods (c : ConsumerClass) : list string :=
  (if view_perform_create (view c) is NotOverridden then ["perform_create"] else [])
  ++ (if view_perform_update (view c) is NotOverridden then ["perform_update"] else [])
  ++ (if view_perform_destroy (view c) is NotOverridden then ["perform_destroy"] else []).

(** [cls(consumer, immediate_broadcast)]; [sock] is [None] when the object
    is made by the signal receiver. *)
Definition init (c : ConsumerClass) (sock : option Socket)
    (immediate_broadcast : bool) : Consumer :=
  match sock with
  | None =>
      mkConsumer c immediate_broadcast None None [] ∅ None [] None EmptyString
  | Some s =>
      mkConsumer c immediate_broadcast (scope_user s) (Some (channel_name s))
        (discover_perform_methods c) ∅ None [] None EmptyString
  end.

(** The model of the serializer class chosen by [get_serializer_class]. *)
Definition serializer_model (self : Consumer) : ModelClass :=
  if immediate_broadcast self
  then ImmediateBroadcast (serializer_meta_model (view (cls self)))
  else Model (serializer_meta_model (view (cls self))).

Definition action_allowed (self : Consumer) (action : string) : bool :=
  if bool_decide (action ∈ [SUBSCRIBE; UNSUBSCRIBE]) then true
  else if negb (bool_decide (allowed_actions (cls self) = []))
  then bool_decide (action ∈ allowed_actions (cls self))
  else match _action_mapping action with
       | None => false
       | Some _ =>
           has_attr (view (cls self))
             (if String.eqb action DELETE then "destroy" else action)
       end.

Definition instance_of_row (c : ModelClass) (r : Row) : Instance :=
  mkInstance c r.1 r.2 None.

Definition parse : M JVal := λ self w,
  match parse_payload (view (cls self)) (data self) with
  | Ok v => (Ok v, self, w)
  | Raise e => (Raise e, self, w)
  end.

Definition get_object : M (option Instance) :=
  self ← get_self;
  match object self with
  | Some o => mret (Some o)
  | None =>
      if bool_decide (action self = Some CREATE) then mret None
      else
        match url self !! 2%nat with
        | None => raise (NotFound "The URL should include a lookup value.")
        | Some lookup_value =>
            w ← get_world;
            match queryset_get (view (cls self)) (lookup_field (cls self))
                    lookup_value (rows w) with
            | Ok r =>
                let obj := instance_of_row (Model (queryset_model (view (cls self)))) r in
                modify_self (set_object (Some obj));;
                mret (Some obj)
            | Raise ObjectDoesNotExist => raise (NotFound "Not found.")
            | Raise ValueError =>
                raise (ValidationError (JList [JStr "The URL lookup value is invalid."]))
            | Raise e => raise e
            end
        end
  end.

(** The dict comprehension of [get_objects]. *)
Definition filter_dict (self : Consumer) (items : list (string * JVal))
    : gmap string JVal :=
  foldl (λ m kv,
      if bool_decide (kv.1 ∈ field_names (cls self))
         || bool_decide (kv.1 ∈ dom (subscription_field_mapping (cls self)))
      then <[default kv.1 (subscription_field_mapping (cls self) !! kv.1) := kv.2]> m
      else m)
    ∅ items.

Definition get_objects : M (list Instance) :=
  data ← parse;
  items ← match data with
          | JDict d => mret d
          | _ => raise AttributeError
          end;
  self ← get_self;
  w ← get_world;
  let fd := filter_dict self items in
  if bool_decide (size fd = 0%nat) then mret []
  else
    match queryset_filter (view (cls self)) fd (rows w) with
    | Ok rs => mret (instance_of_row (Model (queryset_model (view (cls self)))) <$> rs)
    | Raise ValueError =>
        raise (ValidationError (JList [JStr "The lookup value is invalid."]))
    | Raise e => raise e
    end.

(** The assertion message names the class in the source. *)
Definition get_group_name (obj : Instance) : M string :=
  self ← get_self;
  if String.eqb (stream (cls self)) EmptyString
  then raise (AssertionError "The consumer should include a 'stream' attribute.")
  else mret (stream (cls self) +:+ "-" +:+ Py.format (pk obj)).

Fixpoint get_group_names (objects : list Instance) : M (gset string) :=
  match objects with
  | [] => mret ∅
  | obj :: objects' =>
      g ← get_group_name obj;
      gs ← get_group_names objects';
      mret ({[g]} ∪ gs)
  end.

Definition check_permissions (obj : option Instance) : M unit :=
  self ← get_self;
  method ← match action self ≫= _action_mapping with
            | Some (m :: _) => mret (upper m)
            | Some [] => raise IndexError
            | None => raise KeyError
            end;
  let request := mkRequest (user self) method in
  for_each (get_permissions (view (cls self))) (λ permission,
    match has_permission permission request,
          has_object_permission permission request obj with
    | Some p, Some op => if p && op then mret tt else raise PermissionDenied
    | _, _ => raise NotImplementedError
    end).

(** The keyword arguments of [send], as [json.dumps] gets them. *)
Definition response (status : Z) (text : JVal) : JVal :=
  JDict [("status", JInt status); ("text", text)].

Definition detail (msg : string) : JVal := JDict [("detail", JStr msg)].

Definition send (status : Z) (text : JVal) : M unit :=
  self ← get_self;
  match consumer self with
  | None => raise AttributeError
  | Some ch => lift_world (emit (Send ch (response status text)))
  end.

(** The [api.send] message whose text renders [{'action': ..., 'data': ...}]. *)
Definition broadcast_msg (action : option string) (data : JVal) : LayerMsg :=
  ApiSend (JDict [("action", from_option JStr JNull action); ("data", data)]).

Definition group_send (group_name : string) (data : JVal) : M unit :=
  self ← get_self;
  lift_world (Layer.group_send group_name (broadcast_msg (action self) data)).

Definition serialize (obj : Instance) : M JVal :=
  self ← get_self;
  mret (to_representation (view (cls self)) obj).

(** [async_to_sync(self.consumer.channel_layer.group_add)(group,
    self.consumer.channel_name)] *)
Definition consumer_group_add (group : string) : M unit :=
  self ← get_self;
  match consumer self with
  | None => raise AttributeError
  | Some ch => lift_world (Layer.group_add group ch)
  end.

Definition consumer_group_discard (group : string) : M unit :=
  self ← get_self;
  match consumer self with
  | None => raise AttributeError
  | Some ch => lift_world (Layer.group_discard group ch)
  end.

Definition subscribe : M unit :=
  objects ← get_objects;
  for_each objects (λ obj, check_permissions (Some obj));;
  groups' ← get_group_names objects;
  self ← get_self;
  for_each (elements (groups' ∖ groups self)) consumer_group_add;;
  modify_self (λ s, set_groups (groups s ∪ groups') s);;
  send 200 (detail "subscription successful").

Definition unsubscribe : M unit :=
  objects ← get_objects;
  groups' ← get_group_names objects;
  for_each (elements groups') consumer_group_discard;;
  modify_self (λ s, set_groups (groups s ∖ groups') s);;
  send 204 (detail "subscription cancelled").

(** *** Mutations, with the signals Django sends on save and delete *)

Section Mutations.

(** The consumer classes whose [register] connected their receivers to
    [post_save] and [post_delete]. *)
Variable registry : list ConsumerClass.

Definition group_send_post_create (instance : option Instance) : M unit :=
  match instance with
  | None => raise (AssertionError "'perform_create' should return the saved instance.")
  | Some i =>
      g ← get_group_name i;
      d ← serialize i;
      group_send g d
  end.

Definition group_send_post_update (instance : option Instance) : M unit :=
  match instance with
  | None => raise (AssertionError "'perform_update' should return the saved instance.")
  | Some i =>
      g ← get_group_name i;
      d ← serialize i;
      group_send g d
  end.

Definition group_send_post_delete (instance : Instance) : M unit :=
  g ← get_group_name instance;
  group_send g (JDict [("id", to_json (pk instance))]).

(** [ModelBindingMixin.post_change_receiver], a class method of [c]. *)
Definition post_change_receiver (c : ConsumerClass) (instance : Instance)
    (action : string) : M unit :=
  if signal_broadcast instance then
    run_as (set_action (Some action) (init c None false))
      (if String.eqb action CREATE then group_send_post_create (Some instance)
       else if String.eqb action UPDATE then group_send_post_update (Some instance)
       else if String.eqb action DELETE then group_send_post_delete instance
       else raise AttributeError)
  else mret tt.

Definition post_save_receiver (c : ConsumerClass) (instance : Instance)
    (created : bool) : M unit :=
  post_change_receiver c instance (if created then CREATE else UPDATE).

Definition post_delete_receiver (c : ConsumerClass) (instance : Instance) : M unit :=
  post_change_receiver c instance DELETE.

(** Django calls the receivers connected for the class of the instance. *)
Definition receivers_for (sender : ModelClass) : list ConsumerClass :=
  filter (λ c, ModelClass_eqb (get_model c) sender = true) registry.

Definition send_post_save (instance : Instance) (created : bool) : M unit :=
  for_each (receivers_for (i_class instance))
    (λ c, post_save_receiver c instance created).

Definition send_post_delete (instance : Instance) : M unit :=
  for_each (receivers_for (i_class instance))
    (λ c, post_delete_receiver c instance).

(** [dict.update] on column values. *)
Definition update_fields (old new : Fields) : Fields :=
  (new ++ filter (λ kv, bool_decide (kv.1 ∉ new.*1)) old)%list.

Definition replace_row (r : Row) (rs : list Row) : list Row :=
  (λ r', if Val_eqb r'.1 r.1 then r else r') <$> rs.

Definition remove_row (key : Val) (rs : list Row) : list Row :=
  filter (λ r', Val_eqb r'.1 key = false) rs.

(** [Model.objects.create(...)] of model class [c]: inserts the row under the
    next id and sends [post_save] with [created=True]. *)
Definition objects_create (c : ModelClass) (f : Fields) : M Instance :=
  w ← get_world;
  let i := mkInstance c (VInt (next_pk w)) f None in
  put_world (mkWorld (rows w ++ [(pk i, fields i)]) (next_pk w + 1)
               (members w) (log w));;
  send_post_save i true;;
  mret i.

(** [instance.save()] of a stored instance: writes the row and sends
    [post_save] with [created=False]. *)
Definition instance_save (i : Instance) : M unit :=
  w ← get_world;
  put_world (mkWorld (replace_row (pk i, fields i) (rows w)) (next_pk w)
               (members w) (log w));;
  send_post_save i false.

(** [instance.delete()]: removes the row, sends [post_delete], then clears
    the primary key of the Python object. *)
Definition instance_delete (i : Instance) : M Instance :=
  w ← get_world;
  put_world (mkWorld (remove_row (pk i) (rows w)) (next_pk w)
               (members w) (log w));;
  send_post_delete i;;
  mret (set_pk i VNone).

(** A bound serializer that passed [is_valid]. *)
Record Serializer := mkSerializer {
  ser_instance : option Instance;
  validated_data : Fields;
  ser_model : ModelClass;
}.

(** [serializer.save()] of a DRF model serializer. *)
Definition save (s : Serializer) : M Instance :=
  match ser_instance s with
  | None => objects_create (ser_model s) (validated_data s)
  | Some obj =>
      let obj' := set_fields obj (update_fields (fields obj) (validated_data s)) in
      instance_save obj';;
      mret obj'
  end.

Definition deserialize (obj : option Instance) (partial : bool) : M Serializer :=
  data ← parse;
  check_permissions obj;;
  self ← get_self;
  match validate (view (cls self)) obj partial data with
  | inl validated => mret (mkSerializer obj validated (serializer_model self))
  | inr errors => raise (ValidationError errors)
  end.

Definition perform_create (serializer : Serializer) : M (option Instance) :=
  self ← get_self;
  if bool_decide ("perform_create" ∈ _ignore_view self)
  then i ← save serializer; mret (Some i)
  else match view_perform_create (view (cls self)) with
       | OverriddenReturns => i ← save serializer; mret (Some i)
       | _ => save serializer;; mret None
       end.

Definition perform_update (serializer : Serializer) : M (option Instance) :=
  self ← get_self;
  if bool_decide ("perform_update" ∈ _ignore_view self)
  then i ← save serializer; mret (Some i)
  else match view_perform_update (view (cls self)) with
       | OverriddenReturns => i ← save serializer; mret (Some i)
       | _ => save serializer;; mret None
       end.

(** Returns the Python object as [instance.delete()] leaves it; the view's
    [perform_destroy], inherited or overridden, calls [instance.delete()]. *)
Definition perform_destroy (instance : Instance) : M Instance :=
  self ← get_self;
  if bool_decide ("perform_destroy" ∈ _ignore_view self)
  then instance_delete instance
  else instance_delete instance.

Definition create : M unit :=
  serializer ← deserialize None false;
  instance ← perform_create serializer;
  send 201 (detail "creation successful");;
  group_send_post_create instance.

Definition update : M unit :=
  o ← get_object;
  obj ← match o with
         | Some obj => mret obj
         | None => raise AttributeError
         end;
  let obj := set_signal_broadcast obj false in
  serializer ← deserialize (Some obj) true;
  instance ← perform_update serializer;
  send 200 (detail "update successful");;
  group_send_post_update instance.
  (* the reset of [instance._prefetched_objects_cache] that follows touches
     nothing that is kept here *)

Definition delete : M unit :=
  o ← get_object;
  obj ← match o with
         | Some obj => mret obj
         | None => raise AttributeError
         end;
  let pk' := pk obj in
  let obj := set_signal_broadcast obj false in
  obj ← perform_destroy obj;
  let obj := set_pk obj pk' in
  send 204 (detail "deletion successful");;
  group_send_post_delete obj.

(** What the DRF view does with an exception: a status and body for API
    exceptions, [None] for what it re-raises. *)
Definition view_handle_exception (exc : Exc) : option (Z * JVal) :=
  match exc with
  | MethodNotAllowed d => Some (405%Z, detail d)
  | NotFound d => Some (404%Z, detail d)
  | ValidationError d => Some (400%Z, d)
  | ParseError d => Some (400%Z, detail d)
  | PermissionDenied =>
      Some (403%Z, detail "You do not have permission to perform this action.")
  | _ => None
  end.

Definition handle_exception (exc : Exc) : M unit :=
  match view_handle_exception exc with
  | Some (status, data) => send status data
  | None => raise exc
  end.

(** [getattr(self, self.action)()] for the five action methods. *)
Definition dispatch (action : string) : M unit :=
  if String.eqb action SUBSCRIBE then subscribe
  else if String.eqb action UNSUBSCRIBE then unsubscribe
  else if String.eqb action CREATE then create
  else if String.eqb action UPDATE then update
  else if String.eqb action DELETE then delete
  else raise AttributeError.

(** [bytes_data or text_data.encode()] *)
Definition bytes_or_text (bytes_data text_data : option string) : Res string :=
  match bytes_data, text_data with
  | Some b, Some t => Ok (if String.eqb b EmptyString then t else b)
  | Some b, None => if String.eqb b EmptyString then Raise AttributeError else Ok b
  | None, Some t => Ok t
  | None, None => Raise AttributeError
  end.

Definition not_allowed (action : string) : Exc :=
  MethodNotAllowed ("Action " +:+ dquote +:+ action +:+ dquote +:+ " not allowed.").

Definition receive (url : list string) (text_data bytes_data : option string)
    : M unit :=
  modify_self (set_url url);;
  action ← match url !! 1%nat with
            | Some a => mret a
            | None => raise IndexError
            end;
  modify_self (set_action (Some action));;
  data ← match bytes_or_text bytes_data text_data with
          | Ok d => mret d
          | Raise e => raise e
          end;
  modify_self (set_data data);;
  finally
    (try_except
       (self ← get_self;
        (if action_allowed self action then mret tt
         else raise (not_allowed action));;
        dispatch action)
       handle_exception)
    (modify_self (set_object None)).

End Mutations.

End SelfContainedAPIConsumer.

(** ** Consumer classes at registration *)

(** A consumer class as [register] meets it, with what the two [register]
    methods and [get_model] read of it; [None] stands for Python's [None]. *)
Record Declared := mkDeclared {
  declared_name : string;            (* consumer.__name__ *)
  declared_stream : option string;   (* consumer.stream *)
  declared_view : option View;       (* cls.view *)
  view_in_dict : bool;               (* 'view' in cls.__dict__ *)
  declared_model : option string;    (* cls.model *)
  has_register : bool;               (* the class has the mixin's register *)
}.

Module ModelBindingMixin.

(** [cls.model or cls.view.queryset.model] on a declared class: without a
    model and without a view the AttributeError is turned into ValueError.
    (A view of this development always has a queryset, so the
    ImproperlyConfigured branch has no input here.) *)
Definition get_model (c : Declared) : Res ModelClass :=
  match declared_model c with
  | Some m => Ok (Model m)
  | None =>
      match declared_view c with
      | Some v => Ok (Model (queryset_model v))
      | None => Raise ValueError
      end
  end.

(** [cls.register()]: [connected] lists the calls that connected the
    receivers of a class to [post_save] and [post_delete], with the sender
    they were connected for. *)
Definition register (c : Declared) (connected : list (Declared * ModelClass))
    : Res unit * list (Declared * ModelClass) :=
  match declared_view c with
  | None =>
      if view_in_dict c then (Ok tt, connected) else (Raise ValueError, connected)
  | Some _ =>
      match get_model c with
      | Ok model => (Ok tt, (connected ++ [(c, model)])%list)
      | Raise e => (Raise e, connected)
      end
  end.

End ModelBindingMixin.

(** ** APIDemultiplexer *)

Module APIDemultiplexer.

Record Demultiplexer := mkDemux {
  socket : Socket;
  _consumers : list (string * Consumer);   (* stream -> endpoint *)
}.

(** [cls.register] with any number of consumer classes, on the registry (the
    dict from stream names to classes, in insertion order) and the
    connected receivers.  A class is stored before its own [register] is
    called, and a class without that method raises AttributeError there. *)
Fixpoint register (_registry : list (string * Declared))
    (connected : list (Declared * ModelClass)) (consumers : list Declared)
    : Res unit * list (string * Declared) * list (Declared * ModelClass) :=
  match consumers with
  | [] => (Ok tt, _registry, connected)
  | consumer :: consumers' =>
      match declared_stream consumer with
      | None =>
          (Raise (AssertionError ("'" +:+ declared_name consumer
                                  +:+ "' should include a 'stream' attribute.")),
           _registry, connected)
      | Some s =>
          if bool_decide (s ∈ (fst <$> _registry))
          then (Raise (OtherError "AlreadyRegistered"), _registry, connected)
          else
            let _registry' := (_registry ++ [(s, consumer)])%list in
            if has_register consumer then
              match ModelBindingMixin.register consumer connected with
              | (Ok _, connected') => register _registry' connected' consumers'
              | (Raise e, connected') => (Raise e, _registry', connected')
              end
            else (Raise AttributeError, _registry', connected)
      end
  end.

Fixpoint lookup_consumer (s : string) (l : list (string * Consumer))
    : option Consumer :=
  match l with
  | [] => None
  | (s', c) :: l' => if String.eqb s s' then Some c else lookup_consumer s l'
  end.

Fixpoint store_consumer (s : string) (c : Consumer) (l : list (string * Consumer))
    : list (string * Consumer) :=
  match l with
  | [] => []
  | (s', c') :: l' =>
      if String.eqb s s' then (s', c) :: l' else (s', c') :: store_consumer s c l'
  end.

Section Demultiplexer.

Variable _registry : list ConsumerClass.

(** [json.loads]; [None] when the text is not a JSON document. *)
Variable json_loads : string → option JVal.

Definition init (scope_user : option User) (path channel : string) : Demultiplexer :=
  let s := mkSocket scope_user path channel [] in
  mkDemux s ((λ c, (stream c, SelfContainedAPIConsumer.init c (Some s) true))
               <$> _registry).

Definition websocket_connect (d : Demultiplexer) (w : World)
    : Demultiplexer * World :=
  let '(s, w') := GroupUserConsumer.websocket_connect (socket d) w in
  (mkDemux s (_consumers d), w').

(** The [url] computed at the head of [receive]: the stream path of the
    message, or the request path when subscripting the decoded text raises
    [TypeError]. *)
Definition message_url (d : Demultiplexer) (text_data : option string)
    : Res (list string) :=
  match text_data with
  | None => Ok (Py.split slash (scope_path (socket d)))
  | Some t =>
      match json_loads t with
      | None => Raise JSONDecodeError
      | Some (JDict o) =>
          match dict_get "stream" o with
          | None => Raise KeyError
          | Some (JStr s) => Ok (Py.split slash s)
          | Some _ => Raise AttributeError
          end
      | Some _ => Ok (Py.split slash (scope_path (socket d)))
      end
  end.

Definition receive (d : Demultiplexer) (text_data bytes_data : option string)
    (w : World) : Res unit * Demultiplexer * World :=
  match message_url d text_data with
  | Raise e => (Raise e, d, w)
  | Ok url =>
      match url !! 0%nat with
      | None => (Raise IndexError, d, w)
      | Some s =>
          match lookup_consumer s (_consumers d) with
          | None =>
              (Ok tt, d,
               emit (Send (channel_name (socket d))
                       (JDict [("status", JInt 404); ("detail", JStr "Not found")])) w)
          | Some c =>
              match SelfContainedAPIConsumer.receive _registry url text_data
                      bytes_data c w with
              | (r, c', w') => (r, mkDemux (socket d) (store_consumer s c' (_consumers d)), w')
              end
          end
      end
  end.

(** Handler of [api.send] messages from the channel layer. *)
Definition api_send (d : Demultiplexer) (text : JVal) (w : World) : World :=
  emit (Send (channel_name (socket d)) text) w.

(** Collects the groups of every endpoint; the inherited handler of Channels
    then discards each name in [self.groups]. *)
Definition websocket_disconnect (d : Demultiplexer) (w : World)
    : Demultiplexer * World :=
  let gs := (sock_groups (socket d)
             ++ concat ((λ sc, elements (groups sc.2)) <$> _consumers d))%list in
  let s := mkSocket (scope_user (socket d)) (scope_path (socket d))
             (channel_name (socket d)) gs in
  (mkDemux s (_consumers d),
   foldl (λ w' g, Layer.group_discard g (channel_name s) w') w gs).

End Demultiplexer.

End APIDemultiplexer.

(** ** A concrete project: the model, view and consumers of the test suite *)

Module Tests.

Definition digit (c : Ascii.ascii) : option Z :=
  let n := Ascii.nat_of_ascii c in
  if Nat.leb 48 n && Nat.leb n 57 then Some (Z.of_nat (n - 48)) else None.

Fixpoint parse_digits (acc : Z) (s : string) : option Z :=
  match s with
  | EmptyString => Some acc
  | String c s' =>
      match digit c with
      | Some d => parse_digits (10 * acc + d) s'
      | None => None
      end
  end.

(** [int(s)] for unsigned decimal text. *)
Definition int_of_string (s : string) : option Z :=
  match s with
  | EmptyString => None
  | _ => parse_digits 0 s
  end.

Fixpoint find_row (key : Val) (rs : list Row) : option Row :=
  match rs with
  | [] => None
  | r :: rs' => if Val_eqb r.1 key then Some r else find_row key rs'
  end.

(** [APIModel.objects.get(pk=value)] on an integer key. *)
Definition queryset_get (lookup_field value : string) (rs : list Row) : Res Row :=
  match int_of_string value with
  | None => Raise ValueError
  | Some n =>
      match find_row (VInt n) rs with
      | Some r => Ok r
      | None => Raise ObjectDoesNotExist
      end
  end.

(** One keyword of [filter]: [None] for a value the column cannot take. *)
Definition criterion (k : string) (v : JVal) : option (Row → bool) :=
  if String.eqb k "id" then
    match v with
    | JInt n => Some (λ r, Val_eqb r.1 (VInt n))
    | _ => None
    end
  else if String.eqb k "counter" then
    match v with
    | JInt n => Some (λ r, match dict_get "counter" r.2 with
                           | Some (JInt m) => Z.eqb m n
                           | _ => false
                           end)
    | _ => None
    end
  else if String.eqb k "counter__lte" then
    match v with
    | JInt n => Some (λ r, match dict_get "counter" r.2 with
                           | Some (JInt m) => Z.leb m n
                           | _ => false
                           end)
    | _ => None
    end
  else
    match v with
    | JStr s => Some (λ r, match dict_get k r.2 with
                           | Some (JStr s') => String.eqb s s'
                           | _ => false
                           end)
    | _ => Some (λ _, false)
    end.

Fixpoint criteria (l : list (string * JVal)) : option (Row → bool) :=
  match l with
  | [] => Some (λ _, true)
  | (k, v) :: l' =>
      match criterion k v, criteria l' with
      | Some p, Some q => Some (λ r, p r && q r)
      | _, _ => None
      end
  end.

Definition queryset_filter (fd : gmap string JVal) (rs : list Row) : Res (list Row) :=
  match criteria (map_to_list fd) with
  | Some p => Ok (filter (λ r, p r = true) rs)
  | None => Raise ValueError
  end.

(** The serializer for [('id', 'name', 'counter')]: [name] and [counter] are
    required unless the update is partial. *)
Definition validate (obj : option Instance) (partial : bool) (data : JVal)
    : Fields + JVal :=
  match data with
  | JDict d =>
      match dict_get "name" d, dict_get "counter" d with
      | Some (JStr n), Some (JInt c) => inl [("name", JStr n); ("counter", JInt c)]
      | Some (JStr n), None =>
          if partial then inl [("name", JStr n)]
          else inr (JDict [("counter", JList [JStr "This field is required."])])
      | None, Some (JInt c) =>
          if partial then inl [("counter", JInt c)]
          else inr (JDict [("name", JList [JStr "This field is required."])])
      | None, None =>
          if partial then inl []
          else inr (JDict [("name", JList [JStr "This field is required."]);
                           ("counter", JList [JStr "This field is required."])])
      | _, _ => inr (JDict [("detail", JList [JStr "Invalid value."])])
      end
  | _ => inr (JDict [("non_field_errors", JList [JStr "Invalid data."])])
  end.

Definition to_representation (i : Instance) : JVal :=
  JDict (("id", to_json (pk i)) :: fields i).

(** A parser stub: the frames used below, by name. *)
Definition parse_payload (data : string) : Res JVal :=
  if String.eqb data "empty" then Ok (JDict [])
  else if String.eqb data "id=1" then Ok (JDict [("id", JInt 1)])
  else if String.eqb data "colour=red" then Ok (JDict [("colour", JStr "red")])
  else if String.eqb data "name=Ann" then Ok (JDict [("name", JStr "Ann")])
  else if String.eqb data "counter=text" then Ok (JDict [("counter", JStr "text")])
  else if String.eqb data "name=Ann,counter=7"
  then Ok (JDict [("name", JStr "Ann"); ("counter", JInt 7)])
  else Raise (ParseError "JSON parse error").

Definition TestViewSet : View :=
  mkView "APIModel" "APIModel"
    (λ a, bool_decide (a ∈ ["create"; "update"; "destroy"; "list"; "retrieve"]))
    queryset_get queryset_filter [] validate to_representation parse_payload
    NotOverridden NotOverridden NotOverridden.

(** [permissions.AllowAny] *)
Definition AllowAny : Permission :=
  mkPermission (λ _, Some true) (λ _ _, Some true).

(** [permissions.IsAuthenticated] *)
Definition IsAuthenticated : Permission :=
  mkPermission
    (λ r, Some (match req_user r with
                | Some u => negb (Val_eqb (user_pk u) VNone)
                | None => false
                end))
    (λ _ _, Some true).

Definition PermissionViewSet : View :=
  mkView "APIModel" "APIModel"
    (λ a, bool_decide (a ∈ ["create"; "update"; "destroy"; "list"; "retrieve"]))
    queryset_get queryset_filter [AllowAny; IsAuthenticated] validate to_representation
    parse_payload NotOverridden NotOverridden NotOverridden.

Definition StandardConsumer : ConsumerClass :=
  mkClass TestViewSet "standard" None [] "pk" ∅ ["id"; "name"; "counter"].

Definition MappingConsumer : ConsumerClass :=
  mkClass TestViewSet "mapping" None [] "pk"
    {["counter_max" := "counter__lte"]} ["id"; "name"; "counter"].

Definition PermissionConsumer : ConsumerClass :=
  mkClass PermissionViewSet "permissions" None [] "pk" ∅ ["id"; "name"; "counter"].

Definition registry : list ConsumerClass :=
  [StandardConsumer; MappingConsumer; PermissionConsumer].

Definition json_loads (t : string) : option JVal := None.

(** A table with one row and a first connection without a user. *)
Definition world : World :=
  mkWorld [(VInt 1, [("name", JStr "Emily"); ("counter", JInt 2)])] 2 ∅ [].

Definition sock : Socket := mkSocket None "standard/subscribe/" "chan1" [].

Definition standard : Consumer :=
  SelfContainedAPIConsumer.init StandardConsumer (Some sock) true.

End Tests.

(** ** Observations on runs *)

(** Events of [w'] that were not yet in [w]. *)
Definition new_events (w w' : World) : list Event :=
  drop (length (log w)) (log w').

Definition delivered_to (ch : string) (evs : list Event) : list LayerMsg :=
  omap (λ e, match e with
             | Deliver ch' m => if String.eqb ch ch' then Some m else None
             | _ => None
             end) evs.

(** The [group_add] calls among the events. *)
Definition joins (evs : list Event) : list (string * string) :=
  omap (λ e, match e with GroupAdd g ch => Some (g, ch) | _ => None end) evs.

(** The [group_discard] calls among the events. *)
Definition leaves (evs : list Event) : list (string * string) :=
  omap (λ e, match e with GroupDiscard g ch => Some (g, ch) | _ => None end) evs.

(** The [group_send] calls among the events. *)
Definition broadcasts (evs : list Event) : list (string * LayerMsg) :=
  omap (λ e, match e with GroupSend g m => Some (g, m) | _ => None end) evs.

(** The frames written to sockets among the events. *)
Definition responses (evs : list Event) : list (string * JVal) :=
  omap (λ e, match e with Send ch v => Some (ch, v) | _ => None end) evs.

(** What one [group_send] call adds to the log. *)
Definition broadcast_events (g : string) (msg : LayerMsg) (w : World) : list Event :=
  GroupSend g msg :: ((λ ch, Deliver ch msg) <$> elements (group_members g w)).

(** A computation that leaves [self] and the world as they are. *)
Definition readonly {A} (m : M A) : Prop :=
  ∀ self w, ∃ r, m self w = (r, self, w).

(** The channel layer after [ch] joined, or left, the groups of [l] in turn. *)
Definition add_all (ch : string) (l : list string) (w : World) : World :=
  foldl (λ w' g, Layer.group_add g ch w') w l.

Definition discard_all (ch : string) (l : list string) (w : World) : World :=
  foldl (λ w' g, Layer.group_discard g ch w') w l.

(** The state in which [receive] enters its [try] block. *)
Definition entered (url : list string) (a d : string) (self : Consumer) : Consumer :=
  set_data d (set_action (Some a) (set_url url self)).

(** The exception a create message with an invalid payload ends in: that of
    the first check that rejects it. *)
Definition create_rejection (self : Consumer) (w : World) (errors : JVal) : Exc :=
  if SelfContainedAPIConsumer.action_allowed self CREATE then
    match (SelfContainedAPIConsumer.check_permissions None self w).1.1 with
    | Ok _ => ValidationError errors
    | Raise e => e
    end
  else SelfContainedAPIConsumer.not_allowed CREATE.




(** The test [get_objects] applies to the name of a payload entry. *)
Definition criteria_name (self : Consumer) (k : string) : bool :=
  bool_decide (k ∈ field_names (cls self))
  || bool_decide (k ∈ dom (subscription_field_mapping (cls self))).

(** The wire shape of a direct response, as the specification gives it:
    an object with an integer [status] and a string or object [text]. *)
Definition direct_response_shape (v : JVal) : bool :=
  match v with
  | JDict [("status", JInt _); ("text", JStr _)] => true
  | JDict [("status", JInt _); ("text", JDict _)] => true
  | _ => false
  end.

(** ** The rest of the package: registration, configuration, sessions *)

Module Configuration.

Definition check_methods : list string :=
  ["perform_create"; "perform_update"; "perform_destroy"].

(** [discover_perform_methods] for any consumer class and view class:
    [in_consumer m] says that the consumer class overrides [m] of
    [SelfContainedAPIConsumer], [in_view m] that the view class overrides
    [m] of the DRF mixin. *)
Definition discover_perform_methods (in_consumer in_view : string → bool)
    : gset string :=
  let use_consumer_methods :=
    foldl (λ s method, if in_consumer method then s ∪ {[method]} else s)
      ∅ check_methods in
  let standard_view_methods :=
    foldl (λ s method, if negb (in_view method) then s ∪ {[method]} else s)
      ∅ (elements (list_to_set check_methods ∖ use_consumer_methods)) in
  use_consumer_methods ∪ standard_view_methods.

(** What [is_overridden] answers for the view of a consumer class. *)
Definition view_overrides (v : View) (method : string) : bool :=
  if String.eqb method "perform_create"
  then (if view_perform_create v is NotOverridden then false else true)
  else if String.eqb method "perform_update"
  then (if view_perform_update v is NotOverridden then false else true)
  else if String.eqb method "perform_destroy"
  then (if view_perform_destroy v is NotOverridden then false else true)
  else false.

Section JsonVersion.

Context {A : Type}.

(** The attribute [media_type] of a renderer or parser. *)
Variable media_type : A → string.

(** [get_json_version]: the first object of what the view's [get_renderers]
    or [get_parsers] returns that processes JSON. *)
Fixpoint get_json_version (objs : list A) : Res A :=
  match objs with
  | [] => Raise (OtherError "ImproperlyConfigured")
  | obj :: objs' =>
      if String.eqb (media_type obj) "application/json" then Ok obj
      else get_json_version objs'
  end.

End JsonVersion.

End Configuration.

Module Session.

Section Session.

Variable _registry : list ConsumerClass.
Variable json_loads : string → option JVal.

(** The frames of a connection handled in turn, up to the first one whose
    handling raises. *)
Fixpoint receive_all (d : APIDemultiplexer.Demultiplexer)
    (frames : list (option string * option string)) (w : World)
    : Res unit * APIDemultiplexer.Demultiplexer * World :=
  match frames with
  | [] => (Ok tt, d, w)
  | (text_data, bytes_data) :: frames' =>
      match APIDemultiplexer.receive _registry json_loads d text_data bytes_data w with
      | (Ok _, d', w') => receive_all d' frames' w'
      | (Raise e, d', w') => (Raise e, d', w')
      end
  end.

(** A connection from its opening to its close.  When the handling of a
    frame raises, the consumer dies where it stands: its disconnect handler
    does not run. *)
Definition session (scope_user : option User) (path channel : string)
    (frames : list (option string * option string)) (w : World)
    : Res unit * APIDemultiplexer.Demultiplexer * World :=
  let d := APIDemultiplexer.init _registry scope_user path channel in
  let '(d, w) := APIDemultiplexer.websocket_connect d w in
  match receive_all d frames w with
  | (Ok _, d, w) =>
      let '(d, w) := APIDemultiplexer.websocket_disconnect d w in (Ok tt, d, w)
  | (Raise e, d, w) => (Raise e, d, w)
  end.

End Session.


End Session.

(** ** realtime_api/testing.py *)

Module Testing.

(** The index found by the loop over [enumerate(headers)]. *)
Fixpoint cookie_index (headers : list (string * string)) : option nat :=
  match headers with
  | [] => None
  | header :: headers' =>
      if String.eqb header.1 "cookie" then Some 0%nat
      else S <$> cookie_index headers'
  end.

(** The headers [AuthWebsocketCommunicator.__init__] hands on: with a user,
    the session cookie is put into the first [cookie] header, or into a new
    one when there is none. *)
Definition communicator_headers (session_cookie : option string)
    (headers : option (list (string * string)))
    : option (list (string * string)) :=
  match session_cookie with
  | None => headers
  | Some session =>
      let cookie_header := ("cookie", session) in
      match headers with
      | None | Some [] => Some [cookie_header]
      | Some hs =>
          match cookie_index hs with
          | None => Some (hs ++ [cookie_header])%list
          | Some index =>
              Some (<[index := (cookie_header.1,
                                cookie_header.2 +:+ "; "
                                +:+ default EmptyString (snd <$> hs !! index))]> hs)
          end
      end
  end.

End Testing.

(** ** A small program logic for consumer methods *)

(** Every run of [m] from a consumer satisfying [I] ends in one satisfying
    [I], with the worlds before and after related by [R]. *)
Definition maintains {A} (I : Consumer → Prop) (R : World → World → Prop)
    (m : M A) : Prop :=
  ∀ self w r self' w', I self → m self w = (r, self', w') → I self' ∧ R w w'.

(** The groups a connection keeps track of: its own list and the sets of its
    endpoints. *)
Definition tracked (d : APIDemultiplexer.Demultiplexer) : list string :=
  (sock_groups (APIDemultiplexer.socket d)
   ++ concat ((λ sc, elements (groups sc.2)) <$> APIDemultiplexer._consumers d))%list.

(** Events a mutation action of the endpoint on channel [ch] may add to the
    log: frames to [ch], and what publishing to groups adds. *)
Definition mutation_event (ch : string) (e : Event) : Prop :=
  match e with
  | Send c _ => c = ch
  | GroupSend _ _ | Deliver _ _ => True
  | GroupAdd _ _ | GroupDiscard _ _ => False
  end.

(** The channel layer keeps its groups and the log grows by such events. *)
Definition calm (ch : string) (w w' : World) : Prop :=
  members w' = members w ∧
  ∃ l, log w' = (log w ++ l)%list ∧ Forall (mutation_event ch) l.

(** The consumer object is as [s0] was, but for the object it caches. *)
Definition as_entered (s0 self : Consumer) : Prop :=
  set_object None self = set_object None s0.

(** What a run may do to the groups of the channel layer when it is made by
    an endpoint of channel [ch] whose set of groups goes from [G] to [G']:
    [ch] is left in no group outside [G'] that it was not in before outside
    [G], and the groups of every other channel stay as they were. *)
Definition follows (ch : string) (G G' : gset string) (w w' : World) : Prop :=
  (∀ g, ch ∈ group_members g w' →
        g ∈ G' ∨ (ch ∈ group_members g w ∧ g ∉ G)) ∧
  (∀ g c, c ≠ ch → c ∈ group_members g w' ↔ c ∈ group_members g w).

(** The connection [d] on channel [ch] keeps track of every group its
    channel is in. *)
Definition accounted (ch : string) (d : APIDemultiplexer.Demultiplexer)
    (w : World) : Prop :=
  channel_name (APIDemultiplexer.socket d) = ch ∧
  (∀ sc, sc ∈ APIDemultiplexer._consumers d → consumer sc.2 = Some ch) ∧
  (∀ g, ch ∈ group_members g w → g ∈ tracked d).

(** The request [check_permissions] hands to the permission objects. *)
Definition permission_request (self : Consumer) (method : string) : Request :=
  mkRequest (user self) (SelfContainedAPIConsumer.upper method).

(** Permission [p] answers both questions without raising. *)
Definition answers (request : Request) (obj : option Instance) (p : Permission)
    : bool :=
  match has_permission p request, has_object_permission p request obj with
  | Some _, Some _ => true
  | _, _ => false
  end.

(** Permission [p] answers both questions with a true value. *)
Definition grants (request : Request) (obj : option Instance) (p : Permission)
    : bool :=
  match has_permission p request, has_object_permission p request obj with
  | Some a, Some b => a && b
  | _, _ => false
  end.

(** Events a subscribe or unsubscribe action of the endpoint on channel [ch]
    may add to the log: frames to [ch] and group calls for [ch]. *)
Definition subscription_event (ch : string) (e : Event) : Prop :=
  match e with
  | Send c _ | GroupAdd _ c | GroupDiscard _ c => c = ch
  | GroupSend _ _ | Deliver _ _ => False
  end.

(** The table stays as it is and the log grows by such events. *)
Definition quiet (ch : string) (w w' : World) : Prop :=
  rows w' = rows w ∧ next_pk w' = next_pk w ∧
  ∃ l, log w' = (log w ++ l)%list ∧ Forall (subscription_event ch) l.

(** * Properties *)

Import SelfContainedAPIConsumer.

(** ** Logs *)

Lemma log_emit e w : log (emit e w) = (log w ++ [e])%list.
Proof. reflexivity. Qed.

Lemma new_events_app w w' l : log w' = (log w ++ l)%list → new_events w w' = l.
Proof. intros H. unfold new_events. rewrite H. by rewrite drop_app_length. Qed.

Lemma new_events_refl w : new_events w w = [].
Proof. unfold new_events. by rewrite drop_all. Qed.

Lemma log_foldl_emit {A} (f : A → Event) (l : list A) w :
  log (foldl (λ w' x, emit (f x) w') w l) = (log w ++ (f <$> l))%list.
Proof.
  revert w. induction l as [|x l IH]; intros w; simpl.
  - by rewrite app_nil_r.
  - rewrite IH. simpl. by rewrite <- app_assoc.
Qed.

Lemma rows_foldl_emit {A} (f : A → Event) (l : list A) w :
  rows (foldl (λ w' x, emit (f x) w') w l) = rows w.
Proof. revert w. induction l as [|x l IH]; intros w; simpl; [done|]. by rewrite IH. Qed.

Lemma log_group_send g msg w :
  log (Layer.group_send g msg w) = (log w ++ broadcast_events g msg w)%list.
Proof.
  unfold Layer.group_send, broadcast_events.
  rewrite log_foldl_emit. simpl. by rewrite <- app_assoc.
Qed.

Lemma rows_group_send g msg w : rows (Layer.group_send g msg w) = rows w.
Proof. unfold Layer.group_send. by rewrite rows_foldl_emit. Qed.

Lemma add_all_cons ch g l w :
  add_all ch (g :: l) w = add_all ch l (Layer.group_add g ch w).
Proof. reflexivity. Qed.

Lemma discard_all_cons ch g l w :
  discard_all ch (g :: l) w = discard_all ch l (Layer.group_discard g ch w).
Proof. reflexivity. Qed.

Lemma log_add_all ch l w :
  log (add_all ch l w) = (log w ++ ((λ g, GroupAdd g ch) <$> l))%list.
Proof.
  revert w. induction l as [|g l IH]; intros w.
  - simpl. by rewrite app_nil_r.
  - rewrite add_all_cons, IH. simpl. by rewrite <- app_assoc.
Qed.

Lemma rows_add_all ch l w : rows (add_all ch l w) = rows w.
Proof.
  revert w. induction l as [|g l IH]; intros w; [done|].
  by rewrite add_all_cons, IH.
Qed.

Lemma log_discard_all ch l w :
  log (discard_all ch l w) = (log w ++ ((λ g, GroupDiscard g ch) <$> l))%list.
Proof.
  revert w. induction l as [|g l IH]; intros w.
  - simpl. by rewrite app_nil_r.
  - rewrite discard_all_cons, IH. simpl. by rewrite <- app_assoc.
Qed.

Lemma rows_discard_all ch l w : rows (discard_all ch l w) = rows w.
Proof.
  revert w. induction l as [|g l IH]; intros w; [done|].
  by rewrite discard_all_cons, IH.
Qed.

Lemma group_members_discard g g' ch w :
  group_members g (Layer.group_discard g' ch w)
  = if decide (g = g') then group_members g w ∖ {[ch]} else group_members g w.
Proof.
  unfold Layer.group_discard, group_members. simpl.
  case_decide as Hg.
  - subst. by rewrite lookup_insert_eq.
  - by rewrite lookup_insert_ne.
Qed.

Lemma group_members_discard_all g ch l w :
  group_members g (discard_all ch l w)
  = if decide (g ∈ l) then group_members g w ∖ {[ch]} else group_members g w.
Proof.
  revert w. induction l as [|g' l IH]; intros w.
  - change (discard_all ch [] w) with w.
    destruct (decide (g ∈ [])) as [H|H]; [by apply elem_of_nil in H|done].
  - rewrite discard_all_cons, IH, group_members_discard.
    destruct (decide (g = g')) as [->|Hne].
    + rewrite (decide_True (P := g' ∈ g' :: l)) by apply list_elem_of_here.
      destruct (decide (g' ∈ l)); set_solver.
    + destruct (decide (g ∈ l)) as [Hl|Hl].
      * by rewrite decide_True by (by apply list_elem_of_further).
      * rewrite decide_False; [done|]. intros [?|?]%elem_of_cons; done.
Qed.

Lemma joins_app l1 l2 : joins (l1 ++ l2) = (joins l1 ++ joins l2)%list.
Proof. apply omap_app. Qed.

Lemma joins_group_adds ch (l : list string) :
  joins ((λ g, GroupAdd g ch) <$> l) = (λ g, (g, ch)) <$> l.
Proof. induction l as [|g l IH]; [done|]. cbn. f_equal. exact IH. Qed.





Lemma broadcasts_app l1 l2 :
  broadcasts (l1 ++ l2) = (broadcasts l1 ++ broadcasts l2)%list.
Proof. apply omap_app. Qed.

Lemma broadcasts_delivers msg (l : list string) :
  broadcasts ((λ ch, Deliver ch msg) <$> l) = [].
Proof. induction l as [|g l IH]; [done|]. exact IH. Qed.

Lemma broadcasts_broadcast_events g msg w :
  broadcasts (broadcast_events g msg w) = [(g, msg)].
Proof.
  unfold broadcast_events.
  change (broadcasts (GroupSend g msg :: ?l)) with ((g, msg) :: broadcasts l).
  by rewrite broadcasts_delivers.
Qed.



Lemma union_absorbs (X G : gset string) : G ∖ X = ∅ → X ∪ G = X.
Proof.
  intros H. apply set_eq. intros x. split; [|set_solver].
  intros [Hx|Hx]%elem_of_union; [done|].
  destruct (decide (x ∈ X)); [done|].
  assert (x ∈ G ∖ X) as Hd by set_solver. rewrite H in Hd. set_solver.
Qed.

(** ** Running consumer methods *)

Lemma bind_run {A B} (m : M A) (f : A → M B) self w :
  (m ≫= f) self w =
  match m self w with
  | (Ok a, self', w') => f a self' w'
  | (Raise e, self', w') => (Raise e, self', w')
  end.
Proof. reflexivity. Qed.

Ltac unfold_M :=
  unfold mbind, M_bind, mret, M_ret, raise, get_self, put_self, get_world,
    put_world, lift_world, modify_self in *.

Lemma set_groups_id s : set_groups (groups s) s = s.
Proof. by destruct s. Qed.

Lemma set_object_id s : object s = None → set_object None s = s.
Proof. destruct s. simpl. by intros ->. Qed.

Lemma readonly_ret {A} (a : A) : readonly (mret a).
Proof. intros self w. by eexists. Qed.

Lemma readonly_raise {A} e : readonly (@raise A e).
Proof. intros self w. by eexists. Qed.

Lemma readonly_bind {A B} (m : M A) (f : A → M B) :
  readonly m → (∀ a, readonly (f a)) → readonly (m ≫= f).
Proof.
  intros Hm Hf self w. rewrite bind_run.
  destruct (Hm self w) as [[a|e] ->]; [apply Hf | by eexists].
Qed.

Lemma readonly_for_each {A} (l : list A) (f : A → M unit) :
  (∀ x, readonly (f x)) → readonly (for_each l f).
Proof.
  intros Hf. induction l as [|x l IH]; simpl.
  - apply readonly_ret.
  - apply readonly_bind; auto.
Qed.

Lemma readonly_parse : readonly parse.
Proof. intros self w. unfold parse. case_match; by eexists. Qed.

Lemma readonly_get_self : readonly get_self.
Proof. intros self w. by eexists. Qed.

Lemma readonly_get_world : readonly get_world.
Proof. intros self w. by eexists. Qed.

Create HintDb readonly.
#[local] Hint Resolve readonly_ret readonly_raise readonly_parse readonly_get_self
  readonly_get_world : readonly.

Ltac readonly_step :=
  first [ apply readonly_bind; [|intros ?]
        | apply readonly_for_each; intros ?
        | solve [auto with readonly]
        | case_match ].

Lemma readonly_get_objects : readonly get_objects.
Proof. unfold get_objects. repeat readonly_step. Qed.

Lemma readonly_get_group_name obj : readonly (get_group_name obj).
Proof. unfold get_group_name. repeat readonly_step. Qed.

Lemma readonly_get_group_names objs : readonly (get_group_names objs).
Proof.
  induction objs as [|o objs IH]; simpl; [auto with readonly|].
  apply readonly_bind; [apply readonly_get_group_name|intros g].
  apply readonly_bind; [done|intros gs]. auto with readonly.
Qed.

Lemma readonly_check_permissions obj : readonly (check_permissions obj).
Proof. unfold check_permissions. repeat readonly_step. Qed.

Lemma readonly_serialize obj : readonly (serialize obj).
Proof. unfold serialize. repeat readonly_step. Qed.

#[local] Hint Resolve readonly_get_objects readonly_get_group_name
  readonly_get_group_names readonly_check_permissions readonly_serialize
  : readonly.

Lemma readonly_transport {A} (m : M A) s1 w1 s2 w2 r :
  readonly m → m s1 w1 = (r, s1, w1) → (m s1 w1).1.1 = (m s2 w2).1.1 →
  m s2 w2 = (r, s2, w2).
Proof.
  intros Hro H1 Heq. destruct (Hro s2 w2) as [r2 H2].
  rewrite H1, H2 in Heq. simpl in Heq. by subst.
Qed.

Lemma send_run status text self w :
  send status text self w =
  match consumer self with
  | Some ch => (Ok tt, self, emit (Send ch (response status text)) w)
  | None => (Raise AttributeError, self, w)
  end.
Proof. unfold send. rewrite bind_run. simpl. by destruct (consumer self). Qed.

Lemma for_each_group_add l self w ch :
  consumer self = Some ch →
  for_each l consumer_group_add self w = (Ok tt, self, add_all ch l w).
Proof.
  intros Hch. revert w. induction l as [|g l IH]; intros w; simpl; [done|].
  rewrite bind_run. unfold consumer_group_add at 1. rewrite bind_run. simpl.
  rewrite Hch. simpl. apply IH.
Qed.

Lemma for_each_group_discard l self w ch :
  consumer self = Some ch →
  for_each l consumer_group_discard self w = (Ok tt, self, discard_all ch l w).
Proof.
  intros Hch. revert w. induction l as [|g l IH]; intros w; simpl; [done|].
  rewrite bind_run. unfold consumer_group_discard at 1. rewrite bind_run. simpl.
  rewrite Hch. simpl. apply IH.
Qed.

Lemma for_each_no_consumer {X} (l : list X) (f : X → M unit) self w :
  (∀ x self w, consumer self = None → f x self w = (Raise AttributeError, self, w)) →
  consumer self = None →
  for_each l f self w = (if l is [] then Ok tt else Raise AttributeError, self, w).
Proof.
  intros Hf Hn. destruct l as [|g l]; simpl; [done|]. rewrite bind_run. by rewrite Hf.
Qed.

(** ** The identity group of a connection *)

Lemma websocket_connect_groups s w :
  sock_groups (GroupUserConsumer.websocket_connect s w).1
  = (sock_groups s
     ++ [Utils.get_group_user_key (GroupUserConsumer.scope_user_pk s)])%list.
Proof. reflexivity. Qed.

(** Without a user object the connection joins the group that the login
    receiver closes. *)
Lemma websocket_connect_no_user path ch w :
  sock_groups (GroupUserConsumer.websocket_connect (mkSocket None path ch []) w).1
  = [".user"]
  ∧ broadcasts (new_events w (Signals.close_sockets_after_login w))
    = [(".user", WebsocketDisconnect 3)].
Proof.
  split; [reflexivity|].
  unfold Signals.close_sockets_after_login, Utils.close_user_channels.
  erewrite new_events_app; [|apply log_group_send].
  apply broadcasts_broadcast_events.
Qed.

(** A user with an integer key is put into the group named after it. *)
Lemma websocket_connect_user_pk n path ch w :
  sock_groups (GroupUserConsumer.websocket_connect
                 (mkSocket (Some (mkUser (VInt n))) path ch []) w).1
  = [".user" +:+ pretty n].
Proof. reflexivity. Qed.

(** C2, at a connection whose scope carries [AnonymousUser]: the connection
    joins the group [.userNone], the login receiver publishes the forced
    close to [.user], and nothing is delivered to the connection. *)
Theorem anonymous_user_connection_misses_login_close :
  let '(s, w) := GroupUserConsumer.websocket_connect
                   (mkSocket (Some AnonymousUser) "/" "chan1" [])
                   (mkWorld [] 1 ∅ []) in
  sock_groups s = [".userNone"] ∧
  new_events w (Signals.close_sockets_after_login w)
    = [GroupSend ".user" (WebsocketDisconnect 3)] ∧
  delivered_to "chan1" (log (Signals.close_sockets_after_login w)) = [].
Proof. vm_compute. repeat split; reflexivity. Qed.

(** ** Unknown streams *)

Lemma split_nonempty sep s : ∃ x l, Py.split sep s = x :: l.
Proof.
  induction s as [|c s IH]; simpl; eauto.
  destruct (Ascii.eqb c sep); eauto.
  destruct IH as (x & l & ->). eauto.
Qed.

(** C3 as stated fails: the reply to an unknown stream carries its message
    under [detail], which is not the shape of a direct response. *)
Lemma unknown_stream_reply_is_not_a_direct_response :
  let d := APIDemultiplexer.init Tests.registry None "/" "chan1" in
  ∃ v, APIDemultiplexer.receive Tests.registry Tests.json_loads d None
         (Some "id=1") Tests.world
       = (Ok tt, d, emit (Send "chan1" v) Tests.world)
       ∧ direct_response_shape v = false.
Proof. eexists. split; vm_compute; reflexivity. Qed.

(** C3, amended: for a message whose stream is not registered the
    demultiplexer itself replies [{status: 404, detail: 'Not found'}] to the
    connection; no endpoint runs and nothing else happens. *)
Theorem receive_unregistered_stream
    (_registry : list ConsumerClass) (json_loads : string → option JVal)
    d text_data bytes_data w url s
    (Hurl : APIDemultiplexer.message_url json_loads d text_data = Ok url)
    (Hs : url !! 0%nat = Some s)
    (Hnone : APIDemultiplexer.lookup_consumer s (APIDemultiplexer._consumers d) = None) :
  APIDemultiplexer.receive _registry json_loads d text_data bytes_data w
  = (Ok tt, d,
     emit (Send (channel_name (APIDemultiplexer.socket d))
             (JDict [("status", JInt 404); ("detail", JStr "Not found")])) w).
Proof.
  unfold APIDemultiplexer.receive. by rewrite Hurl, Hs, Hnone.
Qed.

Lemma receive_unregistered_stream_witness :
  let d := APIDemultiplexer.init Tests.registry None "nosuch/subscribe/" "chan1" in
  APIDemultiplexer.message_url Tests.json_loads d None
    = Ok ["nosuch"; "subscribe"; EmptyString]
  ∧ APIDemultiplexer.lookup_consumer "nosuch" (APIDemultiplexer._consumers d) = None
  ∧ APIDemultiplexer.receive Tests.registry Tests.json_loads d None (Some "id=1")
      Tests.world
    = (Ok tt, d,
       emit (Send "chan1"
               (JDict [("status", JInt 404); ("detail", JStr "Not found")]))
         Tests.world).
Proof.
  split; [reflexivity|]. split; [reflexivity|].
  apply (receive_unregistered_stream Tests.registry Tests.json_loads
           (APIDemultiplexer.init Tests.registry None "nosuch/subscribe/" "chan1")
           None (Some "id=1") Tests.world
           ["nosuch"; "subscribe"; EmptyString] "nosuch");
    reflexivity.
Defined.

(** ** Subscribing and unsubscribing *)

Lemma subscribe_ok self w objs G ch :
  get_objects self w = (Ok objs, self, w) →
  for_each objs (λ obj, check_permissions (Some obj)) self w = (Ok tt, self, w) →
  get_group_names objs self w = (Ok G, self, w) →
  consumer self = Some ch →
  subscribe self w =
    (Ok tt, set_groups (groups self ∪ G) self,
     emit (Send ch (response 200 (detail "subscription successful")))
       (add_all ch (elements (G ∖ groups self)) w)).
Proof.
  intros Hobjs Hperm HG Hch. unfold subscribe.
  rewrite bind_run, Hobjs, bind_run, Hperm, bind_run, HG, bind_run. simpl.
  rewrite bind_run, (for_each_group_add _ _ _ ch Hch), bind_run. simpl.
  rewrite send_run. simpl. by rewrite Hch.
Qed.

Lemma subscribe_no_consumer self w objs G :
  get_objects self w = (Ok objs, self, w) →
  for_each objs (λ obj, check_permissions (Some obj)) self w = (Ok tt, self, w) →
  get_group_names objs self w = (Ok G, self, w) →
  consumer self = None →
  subscribe self w = (Raise AttributeError, self, w).
Proof.
  intros Hobjs Hperm HG Hch. unfold subscribe.
  rewrite bind_run, Hobjs, bind_run, Hperm, bind_run, HG, bind_run. simpl.
  rewrite bind_run, for_each_no_consumer; [| |done].
  2:{ intros x s' w0 Hs'. unfold consumer_group_add. rewrite bind_run. simpl.
      by rewrite Hs'. }
  destruct (elements (G ∖ groups self)) as [|g l] eqn:Hel; [|done].
  apply elements_empty_inv in Hel. apply leibniz_equiv in Hel.
  rewrite bind_run. simpl. rewrite send_run. simpl. rewrite Hch.
  by rewrite (union_absorbs _ _ Hel), set_groups_id.
Qed.

(** A run of [subscribe] either raises with nothing changed, or went
    through every step. *)
Lemma subscribe_run self w :
  (∃ e, subscribe self w = (Raise e, self, w)) ∨
  (∃ objs G ch,
     get_objects self w = (Ok objs, self, w) ∧
     for_each objs (λ obj, check_permissions (Some obj)) self w = (Ok tt, self, w) ∧
     get_group_names objs self w = (Ok G, self, w) ∧
     consumer self = Some ch).
Proof.
  destruct (readonly_get_objects self w) as [[objs|e] Hobjs];
    [|left; exists e; unfold subscribe; by rewrite bind_run, Hobjs].
  destruct (readonly_for_each objs (λ obj, check_permissions (Some obj))
              (λ x, readonly_check_permissions (Some x)) self w) as [[[]|e] Hperm];
    [|left; exists e; unfold subscribe; by rewrite bind_run, Hobjs, bind_run, Hperm].
  destruct (readonly_get_group_names objs self w) as [[G|e] HG];
    [|left; exists e; unfold subscribe;
      by rewrite bind_run, Hobjs, bind_run, Hperm, bind_run, HG].
  destruct (consumer self) as [ch|] eqn:Hch; [right; by exists objs, G, ch|].
  left. eexists. by apply (subscribe_no_consumer self w objs G).
Qed.

Lemma unsubscribe_ok self w objs G ch :
  get_objects self w = (Ok objs, self, w) →
  get_group_names objs self w = (Ok G, self, w) →
  consumer self = Some ch →
  unsubscribe self w =
    (Ok tt, set_groups (groups self ∖ G) self,
     emit (Send ch (response 204 (detail "subscription cancelled")))
       (discard_all ch (elements G) w)).
Proof.
  intros Hobjs HG Hch. unfold unsubscribe.
  rewrite bind_run, Hobjs, bind_run, HG.
  rewrite bind_run, (for_each_group_discard _ _ _ ch Hch), bind_run. simpl.
  rewrite send_run. simpl. by rewrite Hch.
Qed.

(** What the methods read of [self] and of the world. *)

Lemma get_objects_ext s1 w1 s2 w2 :
  cls s1 = cls s2 → data s1 = data s2 → rows w1 = rows w2 →
  (get_objects s1 w1).1.1 = (get_objects s2 w2).1.1.
Proof.
  intros Hc Hd Hr. unfold get_objects, parse, filter_dict. unfold_M.
  rewrite Hc, Hd.
  destruct (parse_payload _ _) as [[]|]; simpl; try done.
  rewrite Hc, Hr.
  repeat case_match; simpl in *; congruence.
Qed.

Lemma check_permissions_ext obj s1 w1 s2 w2 :
  cls s1 = cls s2 → action s1 = action s2 → user s1 = user s2 →
  (check_permissions obj s1 w1).1.1 = (check_permissions obj s2 w2).1.1.
Proof.
  intros Hc Ha Hu. unfold check_permissions. unfold_M.
  rewrite Hc, Ha, Hu.
  destruct (option_bind _ _ _ _) as [[|m l]|]; simpl; try done.
  generalize (get_permissions (view (cls s2))). intros ps.
  induction ps as [|p ps IH]; simpl; [done|].
  unfold_M.
  destruct (has_permission p {| req_user := user s2; req_method := upper m |})
    as [a|]; simpl; [|done].
  destruct (has_object_permission p
              {| req_user := user s2; req_method := upper m |} obj)
    as [b|]; simpl; [|done].
  destruct (a && b); simpl; done.
Qed.

Lemma for_each_check_permissions_ext objs s1 w1 s2 w2 :
  cls s1 = cls s2 → action s1 = action s2 → user s1 = user s2 →
  (for_each objs (λ obj, check_permissions (Some obj)) s1 w1).1.1
  = (for_each objs (λ obj, check_permissions (Some obj)) s2 w2).1.1.
Proof.
  intros Hc Ha Hu. induction objs as [|o objs IH]; simpl; [done|].
  rewrite !bind_run.
  pose proof (check_permissions_ext (Some o) s1 w1 s2 w2 Hc Ha Hu) as H.
  destruct (readonly_check_permissions (Some o) s1 w1) as [r1 H1].
  destruct (readonly_check_permissions (Some o) s2 w2) as [r2 H2].
  rewrite H1, H2 in *. simpl in H. subst r2. destruct r1; [apply IH|done].
Qed.

Lemma get_group_name_ext o s1 w1 s2 w2 :
  cls s1 = cls s2 →
  (get_group_name o s1 w1).1.1 = (get_group_name o s2 w2).1.1.
Proof.
  intros Hc. unfold get_group_name. unfold_M. rewrite Hc. by case_match.
Qed.

Lemma get_group_names_ext objs s1 w1 s2 w2 :
  cls s1 = cls s2 →
  (get_group_names objs s1 w1).1.1 = (get_group_names objs s2 w2).1.1.
Proof.
  intros Hc. induction objs as [|o objs IH]; simpl; [done|].
  rewrite !bind_run.
  pose proof (get_group_name_ext o s1 w1 s2 w2 Hc) as H.
  destruct (readonly_get_group_name o s1 w1) as [r1 H1].
  destruct (readonly_get_group_name o s2 w2) as [r2 H2].
  rewrite H1, H2 in *. simpl in H. subst r2. destruct r1; [|done].
  rewrite !bind_run.
  destruct (readonly_get_group_names objs s1 w1) as [r1 H1'].
  destruct (readonly_get_group_names objs s2 w2) as [r2 H2'].
  rewrite H1', H2' in *. simpl in IH. subst r2. by destruct r1.
Qed.

(** C5: [subscribe] calls [group_add] only for computed groups that are not
    in [self.groups]; when it completes, exactly those calls were made,
    [self.groups] is the union of the old set and the computed groups, and
    subscribing again with the same message makes no call at all. *)
Theorem subscribe_joins_only_new_groups self w r self' w'
    (Hrun : subscribe self w = (r, self', w')) :
  (∀ g ch, (g, ch) ∈ joins (new_events w w') → r = Ok tt ∧ g ∉ groups self) ∧
  (r = Ok tt →
   ∃ objs G ch,
     get_objects self w = (Ok objs, self, w) ∧
     get_group_names objs self w = (Ok G, self, w) ∧
     consumer self = Some ch ∧
     joins (new_events w w') = (λ g, (g, ch)) <$> elements (G ∖ groups self) ∧
     groups self' = groups self ∪ G ∧
     ∃ w'', subscribe self' w' = (Ok tt, self', w'') ∧
            joins (new_events w' w'') = []).
Proof.
  destruct (subscribe_run self w)
    as [[e He]|(objs & G & ch & Hobjs & Hperm & HG & Hch)].
  { rewrite He in Hrun. injection Hrun as <- <- <-. split; [|done].
    intros g ch. rewrite new_events_refl. by intros ?%elem_of_nil. }
  pose proof (subscribe_ok _ _ _ _ _ Hobjs Hperm HG Hch) as Hok.
  rewrite Hok in Hrun. injection Hrun as <- <- <-.
  assert (Hj : joins (new_events w
            (emit (Send ch (response 200 (detail "subscription successful")))
               (add_all ch (elements (G ∖ groups self)) w)))
          = (λ g, (g, ch)) <$> elements (G ∖ groups self)).
  { erewrite new_events_app; [|by rewrite log_emit, log_add_all, <- app_assoc].
    by rewrite joins_app, joins_group_adds, app_nil_r. }
  split.
  - intros g ch'. rewrite Hj. intros (g' & [= <- <-] & Hin)%list_elem_of_fmap.
    split; [done|]. apply elem_of_elements in Hin. set_solver.
  - intros _. exists objs, G, ch. repeat split; try done.
    set (self' := set_groups (groups self ∪ G) self).
    set (w' := emit _ _).
    assert (Hrows : rows w = rows w') by (unfold w'; simpl; by rewrite rows_add_all).
    eexists. split.
    + rewrite (subscribe_ok self' w' objs G ch); try done.
      * replace (G ∖ groups self') with (∅ : gset string)
          by (unfold self'; simpl; set_solver).
        rewrite elements_empty. simpl.
        replace (groups self' ∪ G) with (groups self')
          by (unfold self'; simpl; set_solver).
        by rewrite set_groups_id.
      * apply (readonly_transport _ self w); auto with readonly.
        by apply get_objects_ext.
      * apply (readonly_transport _ self w); [|done|].
        { apply readonly_for_each. intros x. apply readonly_check_permissions. }
        by apply for_each_check_permissions_ext.
      * apply (readonly_transport _ self w); auto with readonly.
        by apply get_group_names_ext.
    + erewrite new_events_app; [|by rewrite log_emit]. done.
Qed.

(** Subscribing twice to the one object of the table: one join call. *)
Lemma subscribe_joins_only_new_groups_witness :
  let s := set_data "id=1" (set_action (Some SUBSCRIBE) Tests.standard) in
  let run := subscribe s Tests.world in
  subscribe s Tests.world = (Ok tt, run.1.2, run.2) ∧
  joins (new_events Tests.world run.2) = [("standard-1", "chan1")] ∧
  ((∀ g ch, (g, ch) ∈ joins (new_events Tests.world run.2) →
      Ok tt = Ok tt ∧ g ∉ groups s) ∧
   (Ok tt = Ok tt →
    ∃ objs G ch,
      get_objects s Tests.world = (Ok objs, s, Tests.world) ∧
      get_group_names objs s Tests.world = (Ok G, s, Tests.world) ∧
      consumer s = Some ch ∧
      joins (new_events Tests.world run.2)
        = (λ g, (g, ch)) <$> elements (G ∖ groups s) ∧
      groups run.1.2 = groups s ∪ G ∧
      ∃ w'', subscribe run.1.2 run.2 = (Ok tt, run.1.2, w'') ∧
             joins (new_events run.2 w'') = [])).
Proof.
  split; [vm_compute; reflexivity|]. split; [vm_compute; reflexivity|].
  apply (subscribe_joins_only_new_groups
           (set_data "id=1" (set_action (Some SUBSCRIBE) Tests.standard))
           Tests.world (Ok tt)).
  vm_compute; reflexivity.
Defined.

Lemma subscribe_no_objects self w :
  get_objects self w = (Ok [], self, w) →
  subscribe self w =
    match consumer self with
    | Some ch =>
        (Ok tt, self,
         emit (Send ch (response 200 (detail "subscription successful"))) w)
    | None => (Raise AttributeError, self, w)
    end.
Proof.
  intros Hobjs. destruct (consumer self) as [ch|] eqn:Hch.
  - rewrite (subscribe_ok self w [] ∅ ch); try done.
    by rewrite union_empty_r_L, set_groups_id, empty_difference_L, elements_empty.
  - by apply (subscribe_no_consumer self w [] ∅).
Qed.

Lemma unsubscribe_no_consumer self w objs G :
  get_objects self w = (Ok objs, self, w) →
  get_group_names objs self w = (Ok G, self, w) →
  G = ∅ →
  consumer self = None →
  unsubscribe self w = (Raise AttributeError, self, w).
Proof.
  intros Hobjs HG -> Hch. unfold unsubscribe.
  rewrite bind_run, Hobjs, bind_run, HG, bind_run, elements_empty. simpl.
  rewrite bind_run. simpl. rewrite send_run. simpl. rewrite Hch.
  by rewrite difference_empty_L, set_groups_id.
Qed.

Lemma unsubscribe_no_objects self w :
  get_objects self w = (Ok [], self, w) →
  unsubscribe self w =
    match consumer self with
    | Some ch =>
        (Ok tt, self,
         emit (Send ch (response 204 (detail "subscription cancelled"))) w)
    | None => (Raise AttributeError, self, w)
    end.
Proof.
  intros Hobjs. destruct (consumer self) as [ch|] eqn:Hch.
  - rewrite (unsubscribe_ok self w [] ∅ ch); try done.
    by rewrite difference_empty_L, set_groups_id, elements_empty.
  - by apply (unsubscribe_no_consumer self w [] ∅).
Qed.

Lemma get_objects_empty_filter self w items :
  parse_payload (view (cls self)) (data self) = Ok (JDict items) →
  filter_dict self items = ∅ →
  get_objects self w = (Ok [], self, w).
Proof.
  intros Hp Hf. unfold get_objects, parse. rewrite bind_run, Hp. simpl.
  rewrite !bind_run. simpl. rewrite !bind_run. simpl.
  by rewrite Hf, map_size_empty.
Qed.

(** C4: a message whose criteria map comes out empty resolves to no object,
    whatever the table holds, and subscribing with it joins no group. *)
Theorem empty_criteria_resolve_nothing self w items
    (Hparse : parse_payload (view (cls self)) (data self) = Ok (JDict items))
    (Hempty : filter_dict self items = ∅) :
  get_objects self w = (Ok [], self, w) ∧
  ∃ r w', subscribe self w = (r, self, w') ∧
          joins (new_events w w') = [] ∧
          members w' = members w ∧
          (∀ ch, consumer self = Some ch →
             r = Ok tt ∧
             new_events w w'
             = [Send ch (response 200 (detail "subscription successful"))]).
Proof.
  pose proof (get_objects_empty_filter self w items Hparse Hempty) as Hobjs.
  split; [done|]. rewrite (subscribe_no_objects _ _ Hobjs).
  destruct (consumer self) as [ch|].
  - do 2 eexists. split; [done|].
    erewrite new_events_app; [|apply log_emit].
    split; [done|]. split; [done|]. by intros ch' [= <-].
  - do 2 eexists. split; [done|]. rewrite new_events_refl. by repeat split.
Qed.

Lemma empty_criteria_resolve_nothing_witness :
  let s := set_data "empty" (set_action (Some SUBSCRIBE) Tests.standard) in
  parse_payload (view (cls s)) (data s) = Ok (JDict []) ∧
  filter_dict s [] = ∅ ∧
  rows Tests.world ≠ [] ∧
  (get_objects s Tests.world = (Ok [], s, Tests.world) ∧
   ∃ r w', subscribe s Tests.world = (r, s, w') ∧
           joins (new_events Tests.world w') = [] ∧
           members w' = members Tests.world ∧
           (∀ ch, consumer s = Some ch →
              r = Ok tt ∧
              new_events Tests.world w'
              = [Send ch (response 200 (detail "subscription successful"))])).
Proof.
  split; [reflexivity|]. split; [reflexivity|]. split; [done|].
  apply (empty_criteria_resolve_nothing
           (set_data "empty" (set_action (Some SUBSCRIBE) Tests.standard))
           Tests.world []); reflexivity.
Defined.

Lemma filter_dict_known self items :
  filter_dict self items
  = filter_dict self (filter (λ kv, criteria_name self kv.1 = true) items).
Proof.
  unfold filter_dict. generalize (∅ : gmap string JVal).
  induction items as [|kv items IH]; intros m; [done|].
  rewrite filter_cons. fold (criteria_name self kv.1).
  simpl. fold (criteria_name self kv.1).
  destruct (criteria_name self kv.1) eqn:E.
  - rewrite decide_True by done. simpl. fold (criteria_name self kv.1).
    rewrite E. apply IH.
  - rewrite decide_False by done. apply IH.
Qed.

(** C10: entries of the payload whose name is neither a field name nor a key
    of [subscription_field_mapping] never reach the query: the message
    resolves as the message without them does, and when no entry is left it
    resolves to no object, joins or leaves no group, and gets the usual
    success response. *)
Theorem unknown_criteria_are_dropped self w items
    (Hparse : parse_payload (view (cls self)) (data self) = Ok (JDict items)) :
  let known := filter (λ kv, criteria_name self kv.1 = true) items in
  filter_dict self items = filter_dict self known ∧
  (∀ d', parse_payload (view (cls self)) d' = Ok (JDict known) →
     (get_objects self w).1.1 = (get_objects (set_data d' self) w).1.1) ∧
  (known = [] →
   get_objects self w = (Ok [], self, w) ∧
   ∀ ch, consumer self = Some ch →
     subscribe self w
       = (Ok tt, self,
          emit (Send ch (response 200 (detail "subscription successful"))) w) ∧
     unsubscribe self w
       = (Ok tt, self,
          emit (Send ch (response 204 (detail "subscription cancelled"))) w)).
Proof.
  intros known. split; [apply filter_dict_known|]. split.
  - intros d' Hd'. unfold get_objects, parse. rewrite !bind_run. simpl.
    rewrite Hparse, Hd'. simpl. rewrite !bind_run. simpl. rewrite !bind_run. simpl.
    rewrite (filter_dict_known self items). fold known.
    replace (filter_dict (set_data d' self) known) with (filter_dict self known)
      by reflexivity.
    unfold_M. simpl. repeat case_match; simpl in *; congruence.
  - intros Hnone.
    assert (Hobjs : get_objects self w = (Ok [], self, w)).
    { apply (get_objects_empty_filter _ _ items Hparse).
      rewrite filter_dict_known. fold known. by rewrite Hnone. }
    split; [done|]. intros ch Hch.
    rewrite (subscribe_no_objects _ _ Hobjs), (unsubscribe_no_objects _ _ Hobjs).
    by rewrite Hch.
Qed.

Lemma unknown_criteria_are_dropped_witness :
  let s := set_data "colour=red" (set_action (Some SUBSCRIBE) Tests.standard) in
  parse_payload (view (cls s)) (data s) = Ok (JDict [("colour", JStr "red")]) ∧
  filter (λ kv, criteria_name s kv.1 = true) [("colour", JStr "red")] = [] ∧
  subscribe s Tests.world
    = (Ok tt, s,
       emit (Send "chan1" (response 200 (detail "subscription successful")))
         Tests.world).
Proof.
  split; [reflexivity|]. split; [reflexivity|].
  pose proof (unknown_criteria_are_dropped
                (set_data "colour=red" (set_action (Some SUBSCRIBE) Tests.standard))
                Tests.world [("colour", JStr "red")] eq_refl) as (_ & _ & H).
  destruct (H eq_refl) as [_ H']. by destruct (H' "chan1" eq_refl).
Defined.

Lemma group_members_emit g e w : group_members g (emit e w) = group_members g w.
Proof. reflexivity. Qed.



(** ** Messages through [receive] *)

Section Receive.

Variable registry : list ConsumerClass.

(** [receive] in terms of what the gate and the action method do. *)
Lemma receive_run url a text_data bytes_data d self w r s2 w2 :
  url !! 1%nat = Some a →
  bytes_or_text bytes_data text_data = Ok d →
  (if action_allowed self a then dispatch registry a (entered url a d self) w
   else (Raise (not_allowed a), entered url a d self, w)) = (r, s2, w2) →
  receive registry url text_data bytes_data self w =
    match r with
    | Ok _ => (Ok tt, set_object None s2, w2)
    | Raise e =>
        match view_handle_exception e with
        | Some (status, body) =>
            match consumer s2 with
            | Some ch =>
                (Ok tt, set_object None s2, emit (Send ch (response status body)) w2)
            | None => (Raise AttributeError, set_object None s2, w2)
            end
        | None => (Raise e, set_object None s2, w2)
        end
    end.
Proof.
  intros Hurl Hdata Hbody. unfold receive.
  rewrite bind_run. simpl. rewrite Hurl, bind_run. simpl.
  rewrite bind_run. simpl. rewrite Hdata, bind_run. simpl.
  rewrite bind_run. simpl.
  unfold finally, try_except. rewrite bind_run. simpl.
  change (action_allowed (set_data d (set_action (Some a) (set_url url self))) a)
    with (action_allowed self a).
  fold (entered url a d self).
  destruct (action_allowed self a).
  - rewrite bind_run. simpl. rewrite Hbody.
    destruct r as [[]|e]; [reflexivity|].
    unfold handle_exception.
    destruct (view_handle_exception e) as [[st body]|]; [|reflexivity].
    rewrite send_run. by destruct (consumer s2).
  - rewrite bind_run. simpl. injection Hbody as <- <- <-.
    unfold handle_exception. simpl. rewrite send_run.
    change (consumer (entered url a d self)) with (consumer self).
    by destruct (consumer self).
Qed.



(** ** Broadcasts and the suppressed signal *)

Lemma get_group_name_run obj self w :
  stream (cls self) ≠ EmptyString →
  get_group_name obj self w
  = (Ok (stream (cls self) +:+ "-" +:+ Py.format (pk obj)), self, w).
Proof.
  intros Hs. unfold get_group_name. rewrite bind_run. simpl.
  destruct (String.eqb (stream (cls self)) EmptyString) eqn:E; [|done].
  by apply String.eqb_eq in E.
Qed.

Lemma group_send_run g d self w :
  group_send g d self w
  = (Ok tt, self, Layer.group_send g (broadcast_msg (action self) d) w).
Proof. reflexivity. Qed.

Lemma for_each_skip {A} (l : list A) (f : A → M unit) self w :
  (∀ x, f x self w = (Ok tt, self, w)) →
  for_each l f self w = (Ok tt, self, w).
Proof.
  intros Hf. induction l as [|x l IH]; [done|]. simpl.
  by rewrite bind_run, Hf.
Qed.

(** An instance whose [signal_broadcast] reads false passes the receivers
    without a trace. *)
Lemma suppressed_post_save i created self w :
  signal_broadcast i = false →
  send_post_save registry i created self w = (Ok tt, self, w).
Proof.
  intros Hs. apply for_each_skip. intros c.
  unfold post_save_receiver, post_change_receiver. by rewrite Hs.
Qed.

Lemma suppressed_post_delete i self w :
  signal_broadcast i = false →
  send_post_delete registry i self w = (Ok tt, self, w).
Proof.
  intros Hs. apply for_each_skip. intros c.
  unfold post_delete_receiver, post_change_receiver. by rewrite Hs.
Qed.

Lemma instance_delete_suppressed i self w :
  signal_broadcast i = false →
  instance_delete registry i self w
  = (Ok (set_pk i VNone), self,
     mkWorld (remove_row (pk i) (rows w)) (next_pk w) (members w) (log w)).
Proof.
  intros Hs. unfold instance_delete. rewrite bind_run. simpl.
  rewrite bind_run. simpl. rewrite bind_run.
  by rewrite suppressed_post_delete.
Qed.

Lemma perform_destroy_suppressed i self w :
  signal_broadcast i = false →
  perform_destroy registry i self w
  = (Ok (set_pk i VNone), self,
     mkWorld (remove_row (pk i) (rows w)) (next_pk w) (members w) (log w)).
Proof.
  intros Hs. unfold perform_destroy. rewrite bind_run. simpl.
  destruct (bool_decide _); by apply instance_delete_suppressed.
Qed.

(** ** Creation with an invalid payload *)

Lemma parse_run self w :
  parse self w
  = (match parse_payload (view (cls self)) (data self) with
     | Ok v => Ok v
     | Raise e => Raise e
     end, self, w).
Proof. unfold parse. by destruct (parse_payload _ _). Qed.

Lemma deserialize_invalid obj partial self w payload errors :
  parse_payload (view (cls self)) (data self) = Ok payload →
  validate (view (cls self)) obj partial payload = inr errors →
  deserialize obj partial self w
  = (Raise (match (check_permissions obj self w).1.1 with
            | Ok _ => ValidationError errors
            | Raise e => e
            end), self, w).
Proof.
  intros Hp Hv. unfold deserialize. rewrite bind_run, parse_run, Hp, bind_run.
  destruct (readonly_check_permissions obj self w) as [[[]|e] ->]; [|done].
  rewrite bind_run. simpl. by rewrite Hv.
Qed.

(** C7, amended: a create message whose payload fails validation creates no
    record and broadcasts nothing; the connection gets the error of the
    first check that rejects the message: 405 when the action gate refuses
    [create], else what the permission check raises (403 when denied), else
    the validation errors under status 400. *)
Theorem create_with_invalid_payload self w url text_data bytes_data d payload
    errors ch
    (Hurl : url !! 1%nat = Some CREATE)
    (Hdata : bytes_or_text bytes_data text_data = Ok d)
    (Hparse : parse_payload (view (cls self)) d = Ok payload)
    (Hinvalid : validate (view (cls self)) None false payload = inr errors)
    (Hch : consumer self = Some ch) :
  let self1 := entered url CREATE d self in
  receive registry url text_data bytes_data self w
  = match view_handle_exception (create_rejection self1 w errors) with
    | Some (status, body) =>
        (Ok tt, set_object None self1, emit (Send ch (response status body)) w)
    | None => (Raise (create_rejection self1 w errors), set_object None self1, w)
    end
  ∧ (action_allowed self CREATE = true →
     check_permissions None self1 w = (Ok tt, self1, w) →
     receive registry url text_data bytes_data self w
     = (Ok tt, set_object None self1, emit (Send ch (response 400 errors)) w)).
Proof.
  intros self1.
  assert (Hrun : receive registry url text_data bytes_data self w
    = match view_handle_exception (create_rejection self1 w errors) with
      | Some (status, body) =>
          (Ok tt, set_object None self1, emit (Send ch (response status body)) w)
      | None => (Raise (create_rejection self1 w errors), set_object None self1, w)
      end).
  { unfold create_rejection.
    change (action_allowed self1 CREATE) with (action_allowed self CREATE).
    destruct (action_allowed self CREATE) eqn:Hal.
    - rewrite (receive_run url CREATE text_data bytes_data d self w
                 (Raise (match (check_permissions None self1 w).1.1 with
                         | Ok _ => ValidationError errors
                         | Raise e => e
                         end)) self1 w Hurl Hdata).
      + change (consumer self1) with (consumer self). rewrite Hch.
        by destruct (view_handle_exception _) as [[]|].
      + rewrite Hal. unfold dispatch. simpl. unfold create.
        rewrite bind_run. fold self1.
        by rewrite (deserialize_invalid None false self1 w payload errors).
    - rewrite (receive_run url CREATE text_data bytes_data d self w
                 (Raise (not_allowed CREATE)) self1 w Hurl Hdata)
        by (by rewrite Hal).
      change (consumer self1) with (consumer self). by rewrite Hch. }
  split; [exact Hrun|].
  intros Hal Hperm. rewrite Hrun. unfold create_rejection.
  change (action_allowed self1 CREATE) with (action_allowed self CREATE).
  by rewrite Hal, Hperm.
Qed.

(** ** Every mutation is broadcast once *)










Lemma deserialize_ok obj partial self w s s1 w1 :
  deserialize obj partial self w = (Ok s, s1, w1) →
  s1 = self ∧ w1 = w ∧ ser_instance s = obj ∧ ser_model s = serializer_model self.
Proof.
  unfold deserialize. rewrite bind_run, parse_run.
  destruct (parse_payload _ _) as [payload|e]; [|done].
  rewrite bind_run.
  destruct (readonly_check_permissions obj self w) as [[[]|e] ->]; [|done].
  rewrite bind_run. simpl.
  destruct (validate _ _ _ _) as [validated|errors]; [|done].
  by intros [= <- <- <-].
Qed.

Lemma objects_create_suppressed n f self w :
  objects_create registry (ImmediateBroadcast n) f self w
  = (Ok (mkInstance (ImmediateBroadcast n) (VInt (next_pk w)) f None), self,
     mkWorld (rows w ++ [(VInt (next_pk w), f)]) (next_pk w + 1)
       (members w) (log w)).
Proof.
  unfold objects_create. rewrite bind_run. simpl. rewrite bind_run. simpl.
  rewrite bind_run. by rewrite suppressed_post_save.
Qed.

Lemma instance_save_suppressed i self w :
  signal_broadcast i = false →
  instance_save registry i self w
  = (Ok tt, self,
     mkWorld (replace_row (pk i, fields i) (rows w)) (next_pk w)
       (members w) (log w)).
Proof.
  intros Hs. unfold instance_save. rewrite bind_run. simpl. rewrite bind_run. simpl.
  by rewrite suppressed_post_save.
Qed.

(** A save that the endpoint itself caused leaves the channel layer and the
    log alone and yields an instance. *)
Lemma save_suppressed s self w :
  match ser_instance s with
  | None => ∃ n, ser_model s = ImmediateBroadcast n
  | Some obj => signal_broadcast obj = false
  end →
  ∃ i w1, save registry s self w = (Ok i, self, w1) ∧
          members w1 = members w ∧ log w1 = log w.
Proof.
  unfold save. destruct (ser_instance s) as [obj|].
  - intros Hs. rewrite bind_run, instance_save_suppressed by done.
    by do 2 eexists.
  - intros [n ->]. rewrite objects_create_suppressed. by do 2 eexists.
Qed.

Lemma get_object_world self w r s0 w0 :
  get_object self w = (r, s0, w0) → w0 = w.
Proof.
  unfold get_object. rewrite bind_run. simpl.
  destruct (object self); [by intros [= <- <- <-]|].
  destruct (bool_decide _); [by intros [= <- <- <-]|].
  destruct (url self !! 2%nat); [|by intros [= <- <- <-]].
  rewrite bind_run. simpl.
  destruct (queryset_get _ _ _ _) as [row|[]]; try by intros [= <- <- <-].
Qed.

End Receive.

(** ** The properties at the test project *)

(** C7 as stated fails: a client without permission whose create payload is
    invalid is answered 403, not with the validation errors. *)
Lemma create_invalid_payload_without_permission :
  let self := SelfContainedAPIConsumer.init Tests.PermissionConsumer
                (Some Tests.sock) true in
  let payload := JDict [("name", JStr "Ann")] in
  let errors := JDict [("counter", JList [JStr "This field is required."])] in
  parse_payload (view (cls self)) "name=Ann" = Ok payload ∧
  validate (view (cls self)) None false payload = inr errors ∧
  responses (new_events Tests.world
               (receive Tests.registry ["permissions"; "create"; EmptyString] None
                  (Some "name=Ann") self Tests.world).2)
  = [("chan1",
      response 403 (detail "You do not have permission to perform this action."))] ∧
  responses (new_events Tests.world
               (receive Tests.registry ["permissions"; "create"; EmptyString] None
                  (Some "name=Ann") self Tests.world).2)
  ≠ [("chan1", response 400 errors)].
Proof.
  split; [reflexivity|]. split; [reflexivity|]. split; [vm_compute; reflexivity|].
  vm_compute. intros [=].
Qed.

Lemma create_with_invalid_payload_witness :
  let url := ["standard"; "create"; EmptyString] in
  let payload := JDict [("name", JStr "Ann")] in
  let errors := JDict [("counter", JList [JStr "This field is required."])] in
  let self1 := entered url CREATE "name=Ann" Tests.standard in
  url !! 1%nat = Some CREATE ∧
  bytes_or_text (Some "name=Ann") None = Ok "name=Ann" ∧
  parse_payload (view (cls Tests.standard)) "name=Ann" = Ok payload ∧
  validate (view (cls Tests.standard)) None false payload = inr errors ∧
  consumer Tests.standard = Some "chan1" ∧
  action_allowed Tests.standard CREATE = true ∧
  check_permissions None self1 Tests.world = (Ok tt, self1, Tests.world) ∧
  receive Tests.registry url None (Some "name=Ann") Tests.standard Tests.world
  = (Ok tt, set_object None self1,
     emit (Send "chan1" (response 400 errors)) Tests.world).
Proof.
  do 7 (split; [reflexivity|]).
  destruct (create_with_invalid_payload Tests.registry Tests.standard Tests.world
              ["standard"; "create"; EmptyString] None (Some "name=Ann") "name=Ann"
              (JDict [("name", JStr "Ann")])
              (JDict [("counter", JList [JStr "This field is required."])])
              "chan1" eq_refl eq_refl eq_refl eq_refl eq_refl) as [_ H].
  apply H; reflexivity.
Defined.


(** ** What a mutation publishes *)

Section Published.

Variable registry : list ConsumerClass.









End Published.





Section Key.

Variable registry : list ConsumerClass.

(** C6: [delete] keeps the key of the resolved object, deletes it (which
    leaves the Python object without a key), puts the key back, answers 204
    and publishes once, to the group named after the key, the message whose
    action is 'delete' and whose data is the object with the one entry
    [id], the key, and nothing more. *)
Theorem delete_broadcasts_the_key self w obj self1 ch
    (Hobj : get_object self w = (Ok (Some obj), self1, w))
    (Hstream : stream (cls self1) ≠ EmptyString)
    (Haction : action self1 = Some "delete")
    (Hch : consumer self1 = Some ch) :
  let g := stream (cls self1) +:+ "-"
           +:+ match pk obj with
               | VNone => "None"
               | VInt z => pretty z
               | VStr s => s
               end in
  let msg :=
    ApiSend (JDict [("action", JStr "delete");
                    ("data", JDict [("id", match pk obj with
                                           | VNone => JNull
                                           | VInt z => JInt z
                                           | VStr s => JStr s
                                           end)])]) in
  ∃ detached w1 w',
    perform_destroy registry
      (mkInstance (i_class obj) (pk obj) (fields obj) (Some false)) self1 w
      = (Ok detached, self1, w1) ∧
    pk detached = VNone ∧
    rows w1 = filter (λ r', Val_eqb r'.1 (pk obj) = false) (rows w) ∧
    delete registry self w = (Ok tt, self1, w') ∧
    rows w' = rows w1 ∧
    log w'
    = (log w
       ++ Send ch (JDict [("status", JInt 204);
                          ("text", JDict [("detail", JStr "deletion successful")])])
       :: GroupSend g msg
       :: ((λ c, Deliver c msg) <$> elements (default ∅ (members w !! g))))%list ∧
    broadcasts (new_events w w') = [(g, msg)].
Proof.
  intros g msg.
  pose proof (perform_destroy_suppressed registry (set_signal_broadcast obj false)
                self1 w eq_refl) as Hdel.
  set (w1 := mkWorld (filter (λ r', Val_eqb r'.1 (pk obj) = false) (rows w))
               (next_pk w) (members w) (log w)).
  set (answer := JDict [("status", JInt 204);
                        ("text", JDict [("detail", JStr "deletion successful")])]).
  exists (set_pk (set_signal_broadcast obj false) VNone), w1,
    (Layer.group_send g msg (emit (Send ch answer) w1)).
  split; [exact Hdel|]. split; [done|]. split; [done|].
  split.
  { unfold delete. rewrite bind_run, Hobj, bind_run. simpl.
    rewrite bind_run, Hdel, bind_run, send_run, Hch.
    unfold group_send_post_delete. rewrite bind_run, get_group_name_run by done.
    rewrite group_send_run, Haction. reflexivity. }
  split; [by rewrite rows_group_send|].
  assert (log (Layer.group_send g msg (emit (Send ch answer) w1))
          = (log w ++ Send ch answer :: GroupSend g msg
               :: ((λ c, Deliver c msg) <$> elements (default ∅ (members w !! g))))%list)
    as Hlog.
  { rewrite log_group_send, log_emit. simpl. by rewrite <- app_assoc. }
  split; [exact Hlog|].
  rewrite (new_events_app _ _ _ Hlog).
  change (broadcasts (Send ?c ?v :: ?l)) with (broadcasts l).
  apply (broadcasts_broadcast_events g msg w).
Qed.

End Key.

(** A delete of the row of the table while another connection is subscribed
    to it. *)
Lemma delete_broadcasts_the_key_witness :
  let self := entered ["standard"; "delete"; "1"] "delete" "empty" Tests.standard in
  let obj := mkInstance (Model "APIModel") (VInt 1)
               [("name", JStr "Emily"); ("counter", JInt 2)] None in
  let w := mkWorld [(VInt 1, [("name", JStr "Emily"); ("counter", JInt 2)])] 2
             {["standard-1" := {["chan2"]}]} [] in
  let msg := ApiSend (JDict [("action", JStr "delete");
                             ("data", JDict [("id", JInt 1)])]) in
  get_object self w = (Ok (Some obj), set_object (Some obj) self, w) ∧
  ∃ w', delete Tests.registry self w = (Ok tt, set_object (Some obj) self, w') ∧
        rows w' = [] ∧
        log w'
        = [Send "chan1" (JDict [("status", JInt 204);
                                ("text", JDict [("detail",
                                                 JStr "deletion successful")])]);
           GroupSend "standard-1" msg;
           Deliver "chan2" msg].
Proof.
  intros self obj w msg. split; [reflexivity|].
  destruct (delete_broadcasts_the_key Tests.registry self w obj
              (set_object (Some obj) self) "chan1"
              eq_refl ltac:(by vm_compute) eq_refl eq_refl)
    as (detached & w1 & w' & _ & _ & Hrows1 & Hrun & Hrows & Hlog & _).
  exists w'. split; [exact Hrun|]. split.
  - rewrite Hrows, Hrows1. reflexivity.
  - rewrite Hlog. by vm_compute.
Defined.

Section Once.

Variable registry : list ConsumerClass.


End Once.



(** * Further properties of the package *)

(** ** The program logic *)

Section Logic.

Context {I : Consumer → Prop} {R : World → World → Prop} `{!PreOrder R}.

Lemma maintains_ret {A} (a : A) : maintains I R (mret a).
Proof. intros self w r self' w' HI [= <- <- <-]. by split. Qed.

Lemma maintains_raise {A} e : maintains I R (@raise A e).
Proof. intros self w r self' w' HI [= <- <- <-]. by split. Qed.

Lemma maintains_bind {A B} (m : M A) (f : A → M B) :
  maintains I R m → (∀ a, maintains I R (f a)) → maintains I R (m ≫= f).
Proof.
  intros Hm Hf self w r self' w' HI. rewrite bind_run.
  destruct (m self w) as [[[a|e] s1] w1] eqn:E.
  - destruct (Hm _ _ _ _ _ HI E) as [HI1 HR1]. intros Hrun.
    destruct (Hf a _ _ _ _ _ HI1 Hrun) as [HI2 HR2].
    split; [done|]. by etrans.
  - intros [= <- <- <-]. by apply (Hm _ _ _ _ _ HI E).
Qed.

Lemma maintains_for_each {A} (l : list A) (f : A → M unit) :
  (∀ x, maintains I R (f x)) → maintains I R (for_each l f).
Proof.
  intros Hf. induction l as [|x l IH]; simpl.
  - apply maintains_ret.
  - apply maintains_bind; auto.
Qed.

Lemma maintains_readonly {A} (m : M A) : readonly m → maintains I R m.
Proof.
  intros Hro self w r self' w' HI Hrun.
  destruct (Hro self w) as [r0 H0]. rewrite H0 in Hrun.
  injection Hrun as <- <- <-. by split.
Qed.

Lemma maintains_modify_self (f : Consumer → Consumer) :
  (∀ s, I s → I (f s)) → maintains I R (modify_self f).
Proof. intros Hf self w r self' w' HI [= <- <- <-]. split; [by apply Hf|done]. Qed.

Lemma maintains_lift_world (f : World → World) :
  (∀ w, R w (f w)) → maintains I R (lift_world f).
Proof. intros Hf self w r self' w' HI [= <- <- <-]. by split. Qed.

Lemma maintains_bind_ret {A B} (a : A) (f : A → M B) :
  maintains I R (f a) → maintains I R (mret a ≫= f).
Proof. intros Hf self w r self' w' HI. rewrite bind_run. by apply Hf. Qed.

(** Reading the world, writing a changed one, and going on. *)
Lemma maintains_update_world {A} (f : World → World) (k : World → M A) :
  (∀ w, R w (f w)) → (∀ w0, maintains I R (k w0)) →
  maintains I R (w ← get_world; put_world (f w);; k w).
Proof.
  intros Hf Hk self w r self' w' HI. rewrite bind_run. simpl. rewrite bind_run. simpl.
  intros Hrun. destruct (Hk w _ _ _ _ _ HI Hrun) as [HI' HR].
  split; [done|]. etrans; [apply Hf|done].
Qed.

Lemma maintains_try_except {A} (m : M A) (h : Exc → M A) :
  maintains I R m → (∀ e, maintains I R (h e)) → maintains I R (try_except m h).
Proof.
  intros Hm Hh self w r self' w' HI. unfold try_except.
  destruct (m self w) as [[[a|e] s1] w1] eqn:E.
  - intros [= <- <- <-]. by apply (Hm _ _ _ _ _ HI E).
  - destruct (Hm _ _ _ _ _ HI E) as [HI1 HR1]. intros Hrun.
    destruct (Hh e _ _ _ _ _ HI1 Hrun) as [HI2 HR2].
    split; [done|]. by etrans.
Qed.

Lemma maintains_finally {A} (m : M A) (c : M unit) :
  maintains I R m → maintains I R c → maintains I R (finally m c).
Proof.
  intros Hm Hc self w r self' w' HI. unfold finally.
  destruct (m self w) as [[r1 s1] w1] eqn:E.
  destruct (Hm _ _ _ _ _ HI E) as [HI1 HR1].
  destruct (c s1 w1) as [[[[]|e] s2] w2] eqn:E2; intros [= <- <- <-];
    destruct (Hc _ _ _ _ _ HI1 E2) as [HI2 HR2]; (split; [done|by etrans]).
Qed.

(** A computation run on another consumer object. *)
Lemma maintains_run_as {A} (I' : Consumer → Prop) (s : Consumer) (m : M A) :
  I' s → maintains I' R m → maintains I R (run_as s m).
Proof.
  intros Hs Hm self w r self' w' HI. unfold run_as.
  destruct (m s w) as [[r1 s1] w1] eqn:E. intros [= <- <- <-].
  split; [done|]. by apply (Hm _ _ _ _ _ Hs E).
Qed.

End Logic.

(** ** Mutation actions and the channel layer *)

Lemma calm_refl ch w : calm ch w w.
Proof. split; [done|]. exists []. by rewrite app_nil_r. Qed.

Lemma calm_trans ch w1 w2 w3 : calm ch w1 w2 → calm ch w2 w3 → calm ch w1 w3.
Proof.
  intros [Hm1 (l1 & Hl1 & HF1)] [Hm2 (l2 & Hl2 & HF2)]. split; [congruence|].
  exists (l1 ++ l2)%list. split.
  - by rewrite Hl2, Hl1, app_assoc.
  - by apply Forall_app.
Qed.

Lemma calm_preorder ch : PreOrder (calm ch).
Proof. split; [intros w; apply calm_refl | intros w1 w2 w3; apply calm_trans]. Qed.

#[local] Existing Instance calm_preorder.

Lemma calm_emit ch e w : mutation_event ch e → calm ch w (emit e w).
Proof. intros He. split; [done|]. exists [e]. split; [done|]. by constructor. Qed.

Lemma members_foldl_deliver (l : list string) msg w :
  members (foldl (λ w' c, emit (Deliver c msg) w') w l) = members w.
Proof. revert w. induction l as [|c l IH]; intros w; simpl; [done|]. by rewrite IH. Qed.

Lemma calm_group_send ch g msg w : calm ch w (Layer.group_send g msg w).
Proof.
  split.
  - unfold Layer.group_send. by rewrite members_foldl_deliver.
  - exists (broadcast_events g msg w). split; [apply log_group_send|].
    unfold broadcast_events. constructor; [done|].
    apply Forall_fmap, Forall_forall. by intros c _.
Qed.

Lemma calm_table ch rs n w : calm ch w (mkWorld rs n (members w) (log w)).
Proof. split; [done|]. exists []. simpl. by rewrite app_nil_r. Qed.

Section Calm.

Variable registry : list ConsumerClass.
Variable ch : string.

Section AnyConsumer.

Variable I : Consumer → Prop.

Lemma maintains_group_send g d : maintains I (calm ch) (group_send g d).
Proof.
  intros self w r self' w' HI. rewrite group_send_run. intros [= <- <- <-].
  split; [done|apply calm_group_send].
Qed.

Lemma maintains_group_send_post_create i :
  maintains I (calm ch) (group_send_post_create i).
Proof.
  destruct i as [i|]; simpl; [|apply maintains_raise].
  apply maintains_bind; [apply maintains_readonly, readonly_get_group_name|intros g].
  apply maintains_bind; [apply maintains_readonly, readonly_serialize|intros d].
  apply maintains_group_send.
Qed.

Lemma maintains_group_send_post_update i :
  maintains I (calm ch) (group_send_post_update i).
Proof.
  destruct i as [i|]; simpl; [|apply maintains_raise].
  apply maintains_bind; [apply maintains_readonly, readonly_get_group_name|intros g].
  apply maintains_bind; [apply maintains_readonly, readonly_serialize|intros d].
  apply maintains_group_send.
Qed.

Lemma maintains_group_send_post_delete i :
  maintains I (calm ch) (group_send_post_delete i).
Proof.
  apply maintains_bind; [apply maintains_readonly, readonly_get_group_name|intros g].
  apply maintains_group_send.
Qed.

End AnyConsumer.

Section Actions.

Variable I : Consumer → Prop.

Lemma maintains_post_change_receiver c i a :
  maintains I (calm ch) (post_change_receiver c i a).
Proof.
  unfold post_change_receiver. destruct (signal_broadcast i); [|apply maintains_ret].
  apply (maintains_run_as (λ _, True)); [done|].
  destruct (String.eqb a CREATE); [apply maintains_group_send_post_create|].
  destruct (String.eqb a UPDATE); [apply maintains_group_send_post_update|].
  destruct (String.eqb a DELETE); [apply maintains_group_send_post_delete|].
  apply maintains_raise.
Qed.

Lemma maintains_send_post_save i created :
  maintains I (calm ch) (send_post_save registry i created).
Proof. apply maintains_for_each. intros c. apply maintains_post_change_receiver. Qed.

Lemma maintains_send_post_delete i :
  maintains I (calm ch) (send_post_delete registry i).
Proof. apply maintains_for_each. intros c. apply maintains_post_change_receiver. Qed.

Lemma maintains_objects_create c f :
  maintains I (calm ch) (objects_create registry c f).
Proof.
  apply (maintains_update_world
           (λ w, mkWorld (rows w ++ [(VInt (next_pk w), f)]) (next_pk w + 1)
                   (members w) (log w))
           (λ w, send_post_save registry (mkInstance c (VInt (next_pk w)) f None) true;;
                 mret (mkInstance c (VInt (next_pk w)) f None))).
  - intros w. apply calm_table.
  - intros w0. apply maintains_bind; [apply maintains_send_post_save|intros _].
    apply maintains_ret.
Qed.

Lemma maintains_instance_save i :
  maintains I (calm ch) (instance_save registry i).
Proof.
  apply (maintains_update_world
           (λ w, mkWorld (replace_row (pk i, fields i) (rows w)) (next_pk w)
                   (members w) (log w))
           (λ _, send_post_save registry i false)).
  - intros w. apply calm_table.
  - intros _. apply maintains_send_post_save.
Qed.

Lemma maintains_instance_delete i :
  maintains I (calm ch) (instance_delete registry i).
Proof.
  apply (maintains_update_world
           (λ w, mkWorld (remove_row (pk i) (rows w)) (next_pk w)
                   (members w) (log w))
           (λ _, send_post_delete registry i;; mret (set_pk i VNone))).
  - intros w. apply calm_table.
  - intros _. apply maintains_bind; [apply maintains_send_post_delete|intros _].
    apply maintains_ret.
Qed.

Lemma maintains_save s : maintains I (calm ch) (save registry s).
Proof.
  unfold save. destruct (ser_instance s) as [obj|]; [|apply maintains_objects_create].
  apply maintains_bind; [apply maintains_instance_save|intros _]. apply maintains_ret.
Qed.

Lemma maintains_perform_create s : maintains I (calm ch) (perform_create registry s).
Proof.
  apply maintains_bind; [apply maintains_readonly, readonly_get_self|intros self].
  destruct (bool_decide _); [|destruct (view_perform_create _)];
    (apply maintains_bind; [apply maintains_save|intros ?; apply maintains_ret]).
Qed.

Lemma maintains_perform_update s : maintains I (calm ch) (perform_update registry s).
Proof.
  apply maintains_bind; [apply maintains_readonly, readonly_get_self|intros self].
  destruct (bool_decide _); [|destruct (view_perform_update _)];
    (apply maintains_bind; [apply maintains_save|intros ?; apply maintains_ret]).
Qed.

Lemma maintains_perform_destroy i : maintains I (calm ch) (perform_destroy registry i).
Proof.
  apply maintains_bind; [apply maintains_readonly, readonly_get_self|intros self].
  destruct (bool_decide _); apply maintains_instance_delete.
Qed.

Lemma readonly_deserialize obj partial : readonly (deserialize obj partial).
Proof.
  apply readonly_bind; [apply readonly_parse|intros d].
  apply readonly_bind; [apply readonly_check_permissions|intros _].
  apply readonly_bind; [apply readonly_get_self|intros self].
  destruct (validate _ _ _ _); [apply readonly_ret|apply readonly_raise].
Qed.

End Actions.

Variable s0 : Consumer.

Hypothesis Hs0 : consumer s0 = Some ch.

Lemma as_entered_consumer s : as_entered s0 s → consumer s = Some ch.
Proof.
  intros H. change (consumer (set_object None s) = Some ch). by rewrite H.
Qed.

Lemma maintains_send status text : maintains (as_entered s0) (calm ch) (send status text).
Proof.
  intros self w r self' w' HI. rewrite send_run, (as_entered_consumer _ HI).
  intros [= <- <- <-]. split; [done|]. by apply calm_emit.
Qed.

Lemma maintains_get_object : maintains (as_entered s0) (calm ch) get_object.
Proof.
  apply maintains_bind; [apply maintains_readonly, readonly_get_self|intros self].
  destruct (object self); [apply maintains_ret|].
  destruct (bool_decide _); [apply maintains_ret|].
  destruct (url self !! 2%nat); [|apply maintains_raise].
  apply maintains_bind; [apply maintains_readonly, readonly_get_world|intros w].
  destruct (queryset_get _ _ _ _) as [r|e].
  - apply maintains_bind; [|intros _; apply maintains_ret].
    apply maintains_modify_self. by intros ? ?.
  - destruct e; apply maintains_raise.
Qed.

Lemma maintains_create : maintains (as_entered s0) (calm ch) (create registry).
Proof.
  apply maintains_bind; [apply maintains_readonly, readonly_deserialize|intros s].
  apply maintains_bind; [apply maintains_perform_create|intros i].
  apply maintains_bind; [apply maintains_send|intros _].
  apply maintains_group_send_post_create.
Qed.

Lemma maintains_update : maintains (as_entered s0) (calm ch) (update registry).
Proof.
  apply maintains_bind; [apply maintains_get_object|intros o].
  apply maintains_bind; [destruct o; [apply maintains_ret|apply maintains_raise]|].
  intros obj.
  apply maintains_bind; [apply maintains_readonly, readonly_deserialize|intros s].
  apply maintains_bind; [apply maintains_perform_update|intros i].
  apply maintains_bind; [apply maintains_send|intros _].
  apply maintains_group_send_post_update.
Qed.

Lemma maintains_delete : maintains (as_entered s0) (calm ch) (delete registry).
Proof.
  apply maintains_bind; [apply maintains_get_object|intros o].
  apply maintains_bind; [destruct o; [apply maintains_ret|apply maintains_raise]|].
  intros obj.
  apply maintains_bind; [apply maintains_perform_destroy|intros i].
  apply maintains_bind; [apply maintains_send|intros _].
  apply maintains_group_send_post_delete.
Qed.

End Calm.

(** The state [receive] ends in when the dispatched action ended in [s2]. *)
Lemma receive_run_state registry url a text_data bytes_data d self w r0 s2 w2 r s' w' ch :
  url !! 1%nat = Some a →
  bytes_or_text bytes_data text_data = Ok d →
  (if action_allowed self a then dispatch registry a (entered url a d self) w
   else (Raise (not_allowed a), entered url a d self, w)) = (r0, s2, w2) →
  consumer s2 = Some ch →
  receive registry url text_data bytes_data self w = (r, s', w') →
  s' = set_object None s2 ∧
  (w' = w2 ∨ ∃ v, w' = emit (Send ch v) w2).
Proof.
  intros Hurl Hdata Hbody Hch.
  rewrite (receive_run registry url a text_data bytes_data d self w r0 s2 w2
             Hurl Hdata Hbody).
  destruct r0 as [[]|e].
  - intros [= <- <- <-]. split; [done|by left].
  - destruct (view_handle_exception e) as [[st body]|].
    + rewrite Hch. intros [= <- <- <-]. split; [done|right; by eexists].
    + intros [= <- <- <-]. split; [done|by left].
Qed.

(** The three mutation actions, as [receive] runs them. *)
Lemma mutation_run registry url a d self w r0 s2 w2 ch :
  a = CREATE ∨ a = UPDATE ∨ a = DELETE →
  consumer self = Some ch →
  (if action_allowed self a then dispatch registry a (entered url a d self) w
   else (Raise (not_allowed a), entered url a d self, w)) = (r0, s2, w2) →
  as_entered (entered url a d self) s2 ∧ calm ch w w2.
Proof.
  intros Ha Hch. destruct (action_allowed self a).
  - intros Hrun.
    assert (maintains (as_entered (entered url a d self)) (calm ch)
              (dispatch registry a)) as Hm.
    { destruct Ha as [-> | [-> | ->]].
      - by apply maintains_create.
      - by apply maintains_update.
      - by apply maintains_delete. }
    by apply (Hm _ _ _ _ _ eq_refl Hrun).
  - intros [= <- <- <-]. split; [done|apply calm_refl].
Qed.

Lemma joins_mutation_events ch l : Forall (mutation_event ch) l → joins l = [].
Proof. induction 1 as [|[] l He _ IH]; simpl in *; done. Qed.

Lemma leaves_mutation_events ch l : Forall (mutation_event ch) l → leaves l = [].
Proof. induction 1 as [|[] l He _ IH]; simpl in *; done. Qed.

Lemma responses_mutation_events ch l c v :
  Forall (mutation_event ch) l → (c, v) ∈ responses l → c = ch.
Proof.
  induction 1 as [|e l He _ IH]; [by intros ?%elem_of_nil|].
  destruct e; simpl in *; try done.
  intros [[= -> ->]|Hin]%elem_of_cons; [done|by apply IH].
Qed.

(** X1: whatever a create, update or delete message does (complete, be
    refused, fail validation, raise), it makes no group_add and no
    group_discard call, leaves the channel layer's groups and the endpoint's
    own set of groups as they were, and writes frames to no socket but the
    requester's. *)
Theorem mutation_actions_keep_subscriptions
    registry url a text_data bytes_data self w r self' w' ch
    (Ha : a = CREATE ∨ a = UPDATE ∨ a = DELETE)
    (Hurl : url !! 1%nat = Some a)
    (Hch : consumer self = Some ch)
    (Hrun : receive registry url text_data bytes_data self w = (r, self', w')) :
  members w' = members w ∧
  groups self' = groups self ∧
  consumer self' = Some ch ∧
  joins (new_events w w') = [] ∧
  leaves (new_events w w') = [] ∧
  ∀ c v, (c, v) ∈ responses (new_events w w') → c = ch.
Proof.
  assert (groups self' = groups self ∧ consumer self' = Some ch ∧ calm ch w w')
    as (HG & Hch' & Hm & l & Hl & HF).
  { destruct (bytes_or_text bytes_data text_data) as [d|e] eqn:Hdata.
    2:{ unfold receive in Hrun. rewrite bind_run in Hrun. simpl in Hrun.
        rewrite Hurl, bind_run in Hrun. simpl in Hrun.
        rewrite bind_run in Hrun. simpl in Hrun.
        rewrite Hdata, bind_run in Hrun. simpl in Hrun.
        injection Hrun as <- <- <-.
        split; [done|split; [done|apply calm_refl]]. }
    destruct (if action_allowed self a then dispatch registry a (entered url a d self) w
              else (Raise (not_allowed a), entered url a d self, w))
      as [[r0 s2] w2] eqn:Hbody.
    destruct (mutation_run registry url a d self w r0 s2 w2 ch Ha Hch Hbody)
      as [Hs2 Hcalm].
    assert (consumer s2 = Some ch) as Hch2
      by (by apply (as_entered_consumer ch (entered url a d self))).
    destruct (receive_run_state registry url a text_data bytes_data d self w r0 s2 w2
                r self' w' ch Hurl Hdata Hbody Hch2 Hrun) as [-> Hw].
    rewrite Hs2. split; [done|split; [done|]].
    destruct Hw as [->|[v ->]]; [done|].
    etrans; [done|]. by apply calm_emit. }
  rewrite (new_events_app _ _ _ Hl).
  repeat split; try done.
  - by apply (joins_mutation_events ch).
  - by apply (leaves_mutation_events ch).
  - intros c v. by apply responses_mutation_events.
Qed.

Lemma mutation_actions_keep_subscriptions_witness :
  let run := receive Tests.registry ["standard"; "update"; "1"] (Some "name=Ann") None
               (set_groups {["standard-1"]} Tests.standard) Tests.world in
  run.1.1 = Ok tt ∧
  rows run.2 = [(VInt 1, [("name", JStr "Ann"); ("counter", JInt 2)])] ∧
  (members run.2 = members Tests.world ∧
   groups run.1.2 = groups (set_groups {["standard-1"]} Tests.standard) ∧
   consumer run.1.2 = Some "chan1" ∧
   joins (new_events Tests.world run.2) = [] ∧
   leaves (new_events Tests.world run.2) = [] ∧
   ∀ c v, (c, v) ∈ responses (new_events Tests.world run.2) → c = "chan1").
Proof.
  intros run. split; [by vm_compute|]. split; [by vm_compute|].
  apply (mutation_actions_keep_subscriptions Tests.registry
           ["standard"; "update"; "1"] UPDATE (Some "name=Ann") None
           (set_groups {["standard-1"]} Tests.standard) Tests.world run.1.1);
    [right; left; reflexivity | reflexivity | reflexivity | subst run;
     by destruct (receive _ _ _ _ _ _) as [[? ?] ?]].
Defined.

(** ** What a message does to group membership *)

Lemma group_members_add g g' ch w :
  group_members g (Layer.group_add g' ch w)
  = if decide (g = g') then group_members g w ∪ {[ch]} else group_members g w.
Proof.
  unfold Layer.group_add, group_members. simpl.
  case_decide as Hg.
  - subst. by rewrite lookup_insert_eq.
  - by rewrite lookup_insert_ne.
Qed.

Lemma group_members_add_all g ch l w :
  group_members g (add_all ch l w)
  = if decide (g ∈ l) then group_members g w ∪ {[ch]} else group_members g w.
Proof.
  revert w. induction l as [|g' l IH]; intros w.
  - change (add_all ch [] w) with w.
    destruct (decide (g ∈ [])) as [H|H]; [by apply elem_of_nil in H|done].
  - rewrite add_all_cons, IH, group_members_add.
    destruct (decide (g = g')) as [->|Hne].
    + rewrite (decide_True (P := g' ∈ g' :: l)) by apply list_elem_of_here.
      destruct (decide (g' ∈ l)); set_solver.
    + destruct (decide (g ∈ l)) as [Hl|Hl].
      * by rewrite decide_True by (by apply list_elem_of_further).
      * rewrite decide_False; [done|]. intros [?|?]%elem_of_cons; done.
Qed.

Lemma follows_same ch G w w' :
  members w' = members w → follows ch G G w w'.
Proof.
  intros Hm. unfold follows, group_members. rewrite Hm. split.
  - intros g Hg. destruct (decide (g ∈ G)); [by left|by right].
  - done.
Qed.

Lemma follows_emit ch G G' e w w' :
  follows ch G G' w w' → follows ch G G' w (emit e w').
Proof. done. Qed.

Lemma follows_subscribe ch G X w :
  follows ch G (G ∪ X) w (add_all ch (elements (X ∖ G)) w).
Proof.
  split.
  - intros g. rewrite group_members_add_all.
    destruct (decide (g ∈ elements (X ∖ G))) as [Hg|Hg].
    + intros _. left. apply elem_of_elements in Hg. set_solver.
    + intros Hin. destruct (decide (g ∈ G)); [left; set_solver|by right].
  - intros g c Hc. rewrite group_members_add_all.
    destruct (decide (g ∈ elements (X ∖ G))); set_solver.
Qed.

Lemma follows_unsubscribe ch G X w :
  follows ch G (G ∖ X) w (discard_all ch (elements X) w).
Proof.
  split.
  - intros g. rewrite group_members_discard_all.
    destruct (decide (g ∈ elements X)) as [Hg|Hg]; [set_solver|].
    intros Hin. rewrite elem_of_elements in Hg.
    destruct (decide (g ∈ G)); [left; set_solver|by right].
  - intros g c Hc. rewrite group_members_discard_all.
    destruct (decide (g ∈ elements X)); set_solver.
Qed.

Lemma unsubscribe_run self w ch :
  consumer self = Some ch →
  (∃ e, unsubscribe self w = (Raise e, self, w)) ∨
  (∃ objs G,
     get_objects self w = (Ok objs, self, w) ∧
     get_group_names objs self w = (Ok G, self, w)).
Proof.
  intros Hch.
  destruct (readonly_get_objects self w) as [[objs|e] Hobjs];
    [|left; exists e; unfold unsubscribe; by rewrite bind_run, Hobjs].
  destruct (readonly_get_group_names objs self w) as [[G|e] HG];
    [|left; exists e; unfold unsubscribe; by rewrite bind_run, Hobjs, bind_run, HG].
  right. by exists objs, G.
Qed.

Section Tracking.

Variable registry : list ConsumerClass.

Lemma dispatch_tracks a self w r self' w' ch :
  consumer self = Some ch →
  dispatch registry a self w = (r, self', w') →
  set_object None self' = set_groups (groups self') (set_object None self) ∧
  follows ch (groups self) (groups self') w w'.
Proof.
  intros Hch. unfold dispatch.
  destruct (String.eqb a SUBSCRIBE).
  { destruct (subscribe_run self w) as [[e He]|(objs & G & ch' & Hobjs & Hperm & HG & Hch')].
    - rewrite He. intros [= <- <- <-]. split; [done|by apply follows_same].
    - assert (ch' = ch) as -> by congruence.
      rewrite (subscribe_ok self w objs G ch Hobjs Hperm HG Hch).
      intros [= <- <- <-]. split; [done|]. apply follows_emit, follows_subscribe. }
  destruct (String.eqb a UNSUBSCRIBE).
  { destruct (unsubscribe_run self w ch Hch) as [[e He]|(objs & G & Hobjs & HG)].
    - rewrite He. intros [= <- <- <-]. split; [done|by apply follows_same].
    - rewrite (unsubscribe_ok self w objs G ch Hobjs HG Hch).
      intros [= <- <- <-]. split; [done|]. apply follows_emit, follows_unsubscribe. }
  assert (∀ m : M unit, maintains (as_entered self) (calm ch) m →
            m self w = (r, self', w') →
            set_object None self' = set_groups (groups self') (set_object None self) ∧
            follows ch (groups self) (groups self') w w')
    as Hmut.
  { intros m Hm Hrun. destruct (Hm self w r self' w') as [HI [Hmem _]]; [done|done|].
    assert (groups self' = groups self) as HG
      by (change (groups (set_object None self') = groups self); by rewrite HI).
    rewrite HG. split; [by rewrite HI|by apply follows_same]. }
  destruct (String.eqb a CREATE); [by apply Hmut, maintains_create|].
  destruct (String.eqb a UPDATE); [by apply Hmut, maintains_update|].
  destruct (String.eqb a DELETE); [by apply Hmut, maintains_delete|].
  intros [= <- <- <-]. split; [done|by apply follows_same].
Qed.

Lemma receive_tracks url text_data bytes_data self w r self' w' ch :
  consumer self = Some ch →
  receive registry url text_data bytes_data self w = (r, self', w') →
  consumer self' = Some ch ∧ follows ch (groups self) (groups self') w w'.
Proof.
  intros Hch.
  destruct (url !! 1%nat) as [a|] eqn:Hurl.
  2:{ unfold receive. rewrite bind_run. simpl. rewrite Hurl, bind_run. simpl.
      intros [= <- <- <-]. split; [done|by apply follows_same]. }
  destruct (bytes_or_text bytes_data text_data) as [d|e] eqn:Hdata.
  2:{ unfold receive. rewrite bind_run. simpl. rewrite Hurl, bind_run. simpl.
      rewrite bind_run. simpl. rewrite Hdata, bind_run. simpl.
      intros [= <- <- <-]. split; [done|by apply follows_same]. }
  destruct (if action_allowed self a then dispatch registry a (entered url a d self) w
            else (Raise (not_allowed a), entered url a d self, w))
    as [[r0 s2] w2] eqn:Hbody.
  assert (set_object None s2
          = set_groups (groups s2) (set_object None (entered url a d self)) ∧
          follows ch (groups self) (groups s2) w w2) as [Hs2 Hf].
  { destruct (action_allowed self a).
    - by apply (dispatch_tracks a (entered url a d self) w r0 s2 w2 ch).
    - injection Hbody as <- <- <-. split; [done|by apply follows_same]. }
  assert (consumer s2 = Some ch) as Hch2
    by (change (consumer (set_object None s2) = Some ch); by rewrite Hs2).
  intros Hrun.
  destruct (receive_run_state registry url a text_data bytes_data d self w r0 s2 w2
              r self' w' ch Hurl Hdata Hbody Hch2 Hrun) as [-> Hw].
  split; [done|]. destruct Hw as [->|[v ->]]; done.
Qed.


End Tracking.

(** ** A connection and the groups of its channel *)

Lemma elem_of_concat {A} (x : A) (ls : list (list A)) :
  x ∈ concat ls ↔ ∃ l, x ∈ l ∧ l ∈ ls.
Proof.
  induction ls as [|l ls IH]; simpl.
  - split; [by intros ?%elem_of_nil|by intros (l & _ & ?%elem_of_nil)].
  - rewrite elem_of_app, IH. split.
    + intros [Hx|(l' & Hx & Hl')]; [exists l|exists l']; set_solver.
    + intros (l' & Hx & [->|Hl']%elem_of_cons); [by left|right; by exists l'].
Qed.

Lemma elem_of_tracked g d :
  g ∈ tracked d ↔
  g ∈ sock_groups (APIDemultiplexer.socket d) ∨
  ∃ sc, sc ∈ APIDemultiplexer._consumers d ∧ g ∈ groups sc.2.
Proof.
  unfold tracked. rewrite elem_of_app. apply or_iff_compat_l.
  rewrite elem_of_concat. split.
  - intros (l & Hg & Hl). apply list_elem_of_fmap in Hl as (sc & -> & Hsc).
    exists sc. split; [done|]. by apply elem_of_elements in Hg.
  - intros (sc & Hsc & Hg). exists (elements (groups sc.2)). split.
    + by apply elem_of_elements.
    + apply list_elem_of_fmap. by exists sc.
Qed.

Lemma lookup_store_split s l c :
  APIDemultiplexer.lookup_consumer s l = Some c →
  ∃ l1 s' l2, l = (l1 ++ (s', c) :: l2)%list ∧
    ∀ c', APIDemultiplexer.store_consumer s c' l = (l1 ++ (s', c') :: l2)%list.
Proof.
  induction l as [|[s0 c0] l IH]; simpl; [done|].
  destruct (String.eqb s s0) eqn:E.
  - intros [= ->]. by exists [], s0, l.
  - intros (l1 & s' & l2 & -> & Hst)%IH.
    exists ((s0, c0) :: l1), s', l2. split; [done|].
    intros c'. by rewrite Hst.
Qed.

Lemma accounted_connect _registry scope_user path ch w :
  (∀ g, ch ∉ group_members g w) →
  let dw := APIDemultiplexer.websocket_connect
              (APIDemultiplexer.init _registry scope_user path ch) w in
  accounted ch dw.1 dw.2 ∧
  ∀ g c, c ≠ ch → c ∈ group_members g dw.2 ↔ c ∈ group_members g w.
Proof.
  intros Hfresh dw.
  set (key := Utils.get_group_user_key
                (GroupUserConsumer.scope_user_pk (mkSocket scope_user path ch []))).
  assert (dw = (APIDemultiplexer.mkDemux (mkSocket scope_user path ch [key])
                  (APIDemultiplexer._consumers
                     (APIDemultiplexer.init _registry scope_user path ch)),
                Layer.group_add key ch w)) as -> by reflexivity.
  split; [split; [done|split]|].
  - intros sc (c & -> & Hc)%list_elem_of_fmap. done.
  - intros g. cbn [fst snd]. rewrite group_members_add.
    destruct (decide (g = key)) as [->|Hne].
    + intros _. apply elem_of_tracked. left. cbn. set_solver.
    + intros Hg. by apply Hfresh in Hg.
  - intros g c Hc. cbn [fst snd]. rewrite group_members_add.
    destruct (decide (g = key)); set_solver.
Qed.

Lemma disconnect_clears ch d w :
  accounted ch d w →
  let dw := APIDemultiplexer.websocket_disconnect d w in
  (∀ g, ch ∉ group_members g dw.2) ∧
  ∀ g c, c ≠ ch → c ∈ group_members g dw.2 ↔ c ∈ group_members g w.
Proof.
  intros (Hname & Hcons & Htr). simpl. rewrite Hname.
  change (foldl (λ w' g, Layer.group_discard g ch w') w ?l) with (discard_all ch l w).
  fold (tracked d). split.
  - intros g. rewrite group_members_discard_all.
    destruct (decide (g ∈ tracked d)) as [Hg|Hg]; [set_solver|].
    intros Hin. by apply Hg, Htr.
  - intros g c Hc. rewrite group_members_discard_all.
    destruct (decide (g ∈ tracked d)); set_solver.
Qed.

Section Connection.

Variable _registry : list ConsumerClass.
Variable json_loads : string → option JVal.

Lemma accounted_receive ch d text_data bytes_data w r d' w' :
  accounted ch d w →
  APIDemultiplexer.receive _registry json_loads d text_data bytes_data w = (r, d', w') →
  accounted ch d' w' ∧
  ∀ g c, c ≠ ch → c ∈ group_members g w' ↔ c ∈ group_members g w.
Proof.
  intros (Hname & Hcons & Htr). unfold APIDemultiplexer.receive.
  destruct (APIDemultiplexer.message_url json_loads d text_data) as [url|e];
    [|by intros [= <- <- <-]].
  destruct (url !! 0%nat) as [s|]; [|by intros [= <- <- <-]].
  destruct (APIDemultiplexer.lookup_consumer s (APIDemultiplexer._consumers d))
    as [c|] eqn:Hlook; [|by intros [= <- <- <-]].
  destruct (receive _registry url text_data bytes_data c w) as [[r0 c'] w0] eqn:Hrun.
  intros [= <- <- <-].
  destruct (lookup_store_split _ _ _ Hlook) as (l1 & s' & l2 & Hl & Hst).
  assert (consumer c = Some ch) as Hc.
  { apply (Hcons (s', c)). rewrite Hl. set_solver. }
  destruct (receive_tracks _registry url text_data bytes_data c w r0 c' w0 ch Hc Hrun)
    as [Hc' [Hown Hothers]].
  split; [|done]. split; [done|]. split; simpl.
  - intros sc. rewrite Hst. intros [Hin|[->|Hin]%elem_of_cons]%elem_of_app.
    + apply Hcons. rewrite Hl. set_solver.
    + done.
    + apply Hcons. rewrite Hl. set_solver.
  - intros g Hg. apply elem_of_tracked. simpl. rewrite Hst.
    destruct (Hown g Hg) as [Hnew|[Hold Hnot]].
    + right. exists (s', c'). set_solver.
    + apply Htr, elem_of_tracked in Hold as [Hs|(sc & Hsc & Hgsc)]; [by left|].
      right. exists sc. split; [|done].
      rewrite Hl in Hsc. apply elem_of_app in Hsc as [Hin|[->|Hin]%elem_of_cons].
      * set_solver.
      * done.
      * set_solver.
Qed.

Lemma accounted_receive_all ch frames d w r d' w' :
  accounted ch d w →
  Session.receive_all _registry json_loads d frames w = (r, d', w') →
  accounted ch d' w' ∧
  ∀ g c, c ≠ ch → c ∈ group_members g w' ↔ c ∈ group_members g w.
Proof.
  revert d w. induction frames as [|[text_data bytes_data] frames IH]; intros d w Hacc.
  - by intros [= <- <- <-].
  - simpl.
    destruct (APIDemultiplexer.receive _registry json_loads d text_data bytes_data w)
      as [[[[]|e] d1] w1] eqn:Hrun;
      destruct (accounted_receive _ _ _ _ _ _ _ _ Hacc Hrun) as [Hacc1 Hoth1].
    + intros Hrest. destruct (IH _ _ Hacc1 Hrest) as [Hacc2 Hoth2].
      split; [done|]. intros g c Hc. by rewrite Hoth2, Hoth1.
    + by intros [= <- <- <-].
Qed.

End Connection.

(** X3: a connection that is opened on a channel no group knows, gets any
    frames whatever and is closed regularly leaves every group of the channel
    layer with the members it had before the connection: the disconnect
    handler discards the channel from each group joined on connect or by a
    subscription of one of the endpoints. *)
Theorem closed_connection_leaves_no_membership
    _registry json_loads scope_user path ch frames w d' w'
    (Hfresh : ∀ g, ch ∉ group_members g w)
    (Hrun : Session.session _registry json_loads scope_user path ch frames w
            = (Ok tt, d', w')) :
  ∀ g, group_members g w' = group_members g w.
Proof.
  unfold Session.session in Hrun.
  destruct (accounted_connect _registry scope_user path ch w Hfresh) as [Hacc0 Hoth0].
  destruct (APIDemultiplexer.websocket_connect _ w) as [d0 w0]. simpl in Hacc0, Hoth0.
  destruct (Session.receive_all _registry json_loads d0 frames w0)
    as [[[[]|e] d1] w1] eqn:Hall; [|done].
  destruct (accounted_receive_all _registry json_loads ch frames d0 w0 _ d1 w1
              Hacc0 Hall) as [Hacc1 Hoth1].
  destruct (disconnect_clears ch d1 w1 Hacc1) as [Hclear Hoth2].
  destruct (APIDemultiplexer.websocket_disconnect d1 w1) as [d2 w2].
  simpl in Hclear, Hoth2. injection Hrun as <- <-.
  intros g. apply set_eq. intros c.
  destruct (decide (c = ch)) as [->|Hc].
  - split; intros Hin; [by apply Hclear in Hin|by apply Hfresh in Hin].
  - by rewrite Hoth2, Hoth1, Hoth0.
Qed.


Lemma closed_connection_leaves_no_membership_witness :
  let run := Session.session Tests.registry Tests.json_loads None
               "standard/subscribe/" "chan1" [(None, Some "id=1")] Tests.world in
  run.1.1 = Ok tt ∧
  joins (log run.2) = [(".user", "chan1"); ("standard-1", "chan1")] ∧
  ∀ g, group_members g run.2 = group_members g Tests.world.
Proof.
  intros run. assert (run.1.1 = Ok tt) as Hr by (by vm_compute).
  split; [done|]. split; [by vm_compute|].
  apply (closed_connection_leaves_no_membership Tests.registry Tests.json_loads None
           "standard/subscribe/" "chan1" [(None, Some "id=1")] Tests.world run.1.2).
  - intros g. vm_compute. set_solver.
  - rewrite <- Hr. subst run.
    by destruct (Session.session _ _ _ _ _ _ _) as [[? ?] ?].
Defined.

(** ** Refusals *)

Lemma for_each_permissions request obj ps self w :
  ∃ r, for_each ps (λ permission,
         match has_permission permission request,
               has_object_permission permission request obj with
         | Some p, Some op => if p && op then mret tt else raise PermissionDenied
         | _, _ => raise NotImplementedError
         end) self w = (r, self, w) ∧
       (r = Ok tt ↔ forallb (grants request obj) ps = true) ∧
       (forallb (answers request obj) ps = true →
        forallb (grants request obj) ps = false → r = Raise PermissionDenied).
Proof.
  induction ps as [|p ps (r & Hrun & Hok & Hdenied)].
  - exists (Ok tt). by repeat split.
  - cbn [for_each forallb]. rewrite bind_run. unfold grants at 1 3, answers at 1.
    destruct (has_permission p request) as [a|];
      [destruct (has_object_permission p request obj) as [b|]|].
    + destruct (a && b); simpl.
      * rewrite Hrun. exists r. done.
      * exists (Raise PermissionDenied). split; [done|]. split; [|done].
        split; intros [=].
    + exists (Raise NotImplementedError). split; [done|]. split; [|done].
      split; intros [=].
    + exists (Raise NotImplementedError). split; [done|]. split; [|done].
      split; intros [=].
Qed.

Lemma check_permissions_spec obj self w a m ms :
  action self = Some a →
  _action_mapping a = Some (m :: ms) →
  ∃ r, check_permissions obj self w = (r, self, w) ∧
       (r = Ok tt ↔
        forallb (grants (permission_request self m) obj)
          (get_permissions (view (cls self))) = true) ∧
       (forallb (answers (permission_request self m) obj)
          (get_permissions (view (cls self))) = true →
        forallb (grants (permission_request self m) obj)
          (get_permissions (view (cls self))) = false →
        r = Raise PermissionDenied).
Proof.
  intros Ha Hm. unfold check_permissions. rewrite bind_run. simpl.
  rewrite Ha. simpl. rewrite Hm, bind_run. simpl.
  apply (for_each_permissions (permission_request self m)).
Qed.

(** X4: the permission objects of the view are asked with a request that
    carries the user of the connection and, as its method, the first HTTP
    method of the action in upper case; the check passes exactly when every
    one of them grants both the general and the object permission, and when
    all of them answer and one does not grant, it raises PermissionDenied. *)
Theorem permissions_are_conjunctive obj self w a m ms
    (Ha : action self = Some a)
    (Hm : _action_mapping a = Some (m :: ms)) :
  let asked := forallb (grants (permission_request self m) obj)
                 (get_permissions (view (cls self))) in
  (check_permissions obj self w = (Ok tt, self, w) ↔ asked = true) ∧
  (forallb (answers (permission_request self m) obj)
     (get_permissions (view (cls self))) = true →
   asked = false →
   check_permissions obj self w = (Raise PermissionDenied, self, w)).
Proof.
  destruct (check_permissions_spec obj self w a m ms Ha Hm) as (r & Hrun & Hok & Hden).
  rewrite Hrun. split.
  - rewrite <- Hok. split; [by intros [= ->]|by intros ->].
  - intros Hans Hno. by rewrite (Hden Hans Hno).
Qed.

Lemma permissions_are_conjunctive_witness :
  let self := set_action (Some UPDATE)
                (init Tests.PermissionConsumer (Some Tests.sock) true) in
  permission_request self "put" = mkRequest None "PUT" ∧
  check_permissions None self Tests.world = (Raise PermissionDenied, self, Tests.world).
Proof.
  intros self. split; [reflexivity|].
  apply (permissions_are_conjunctive None self Tests.world UPDATE "put" ["patch"]);
    reflexivity.
Defined.

Section Refusals.

Variable registry : list ConsumerClass.

Lemma receive_refused url a text_data bytes_data d self w ch e st body :
  url !! 1%nat = Some a →
  bytes_or_text bytes_data text_data = Ok d →
  consumer self = Some ch →
  (if action_allowed self a then dispatch registry a (entered url a d self) w
   else (Raise (not_allowed a), entered url a d self, w))
  = (Raise e, entered url a d self, w) →
  view_handle_exception e = Some (st, body) →
  receive registry url text_data bytes_data self w
  = (Ok tt, set_object None (entered url a d self),
     emit (Send ch (response st body)) w).
Proof.
  intros Hurl Hdata Hch Hbody Hview.
  rewrite (receive_run registry url a text_data bytes_data d self w _ _ _
             Hurl Hdata Hbody), Hview.
  change (consumer (entered url a d self)) with (consumer self). by rewrite Hch.
Qed.

(** X5: when a consumer class lists its allowed actions, a message with any
    other action than subscribe and unsubscribe is answered with one 405
    response that names the action, and nothing else happens: the action is
    not run, whatever the view would support. *)
Theorem unlisted_action_is_refused url a text_data bytes_data d self w ch
    (Hurl : url !! 1%nat = Some a)
    (Hdata : bytes_or_text bytes_data text_data = Ok d)
    (Hch : consumer self = Some ch)
    (Hlist : allowed_actions (cls self) ≠ [])
    (Hnot : a ∉ allowed_actions (cls self))
    (Hsub : a ≠ SUBSCRIBE ∧ a ≠ UNSUBSCRIBE) :
  receive registry url text_data bytes_data self w
  = (Ok tt, set_object None (entered url a d self),
     emit (Send ch (response 405
                      (detail ("Action " +:+ dquote +:+ a +:+ dquote
                               +:+ " not allowed.")))) w).
Proof.
  assert (action_allowed self a = false) as Hna.
  { unfold action_allowed.
    rewrite bool_decide_eq_false_2 by (set_unfold; naive_solver).
    rewrite (bool_decide_eq_false_2 (allowed_actions (cls self) = [])) by done.
    simpl. by apply bool_decide_eq_false_2. }
  apply (receive_refused url a text_data bytes_data d self w ch (not_allowed a));
    try done.
  by rewrite Hna.
Qed.

Lemma get_object_fails self w v e :
  object self = None → action self ≠ Some CREATE → url self !! 2%nat = Some v →
  queryset_get (view (cls self)) (lookup_field (cls self)) v (rows w) = Raise e →
  get_object self w
  = (Raise (match e with
            | ObjectDoesNotExist => NotFound "Not found."
            | ValueError =>
                ValidationError (JList [JStr "The URL lookup value is invalid."])
            | _ => e
            end), self, w).
Proof.
  intros Hobj Hact Hurl Hget. unfold get_object. rewrite bind_run. simpl.
  rewrite Hobj, bool_decide_eq_false_2 by done. rewrite Hurl, bind_run. simpl.
  rewrite Hget. by destruct e.
Qed.

(** X6: an update or delete message whose lookup value finds no object is
    answered 404 'Not found.', and one whose lookup value the queryset
    rejects as a value is answered 400 with the text 'The URL lookup value
    is invalid.'; in both cases that response is all that happens. *)
Theorem failed_lookup_is_reported url a v text_data bytes_data d self w ch e
    (Ha : a = UPDATE ∨ a = DELETE)
    (Hurl1 : url !! 1%nat = Some a)
    (Hurl2 : url !! 2%nat = Some v)
    (Hdata : bytes_or_text bytes_data text_data = Ok d)
    (Hobj : object self = None)
    (Hch : consumer self = Some ch)
    (Hallowed : action_allowed self a = true)
    (Hget : queryset_get (view (cls self)) (lookup_field (cls self)) v (rows w)
            = Raise e)
    (He : e = ObjectDoesNotExist ∨ e = ValueError) :
  receive registry url text_data bytes_data self w
  = (Ok tt, entered url a d self,
     emit (Send ch (match e with
                    | ValueError =>
                        response 400 (JList [JStr "The URL lookup value is invalid."])
                    | _ => response 404 (detail "Not found.")
                    end)) w).
Proof.
  assert (get_object (entered url a d self) w
          = (Raise (match e with
                    | ObjectDoesNotExist => NotFound "Not found."
                    | ValueError =>
                        ValidationError (JList [JStr "The URL lookup value is invalid."])
                    | _ => e
                    end), entered url a d self, w)) as Hfail.
  { apply (get_object_fails _ w v); try done.
    simpl. destruct Ha as [-> | ->]; by intros [=]. }
  assert (set_object None (entered url a d self) = entered url a d self) as Hs
    by (by apply set_object_id).
  rewrite <- Hs at 1.
  destruct He as [-> | ->].
  - apply (receive_refused url a text_data bytes_data d self w ch
             (NotFound "Not found.")); try done.
    rewrite Hallowed. unfold dispatch.
    destruct Ha as [-> | ->]; simpl.
    + unfold update. by rewrite bind_run, Hfail.
    + unfold delete. by rewrite bind_run, Hfail.
  - apply (receive_refused url a text_data bytes_data d self w ch
             (ValidationError (JList [JStr "The URL lookup value is invalid."])));
      try done.
    rewrite Hallowed. unfold dispatch.
    destruct Ha as [-> | ->]; simpl.
    + unfold update. by rewrite bind_run, Hfail.
    + unfold delete. by rewrite bind_run, Hfail.
Qed.

End Refusals.

Lemma unlisted_action_is_refused_witness :
  let c := mkClass Tests.TestViewSet "standard" None ["create"] "pk" ∅
             ["id"; "name"; "counter"] in
  let self := init c (Some Tests.sock) true in
  has_attr (view c) "destroy" = true ∧
  receive Tests.registry ["standard"; "delete"; "1"] None (Some "empty") self Tests.world
  = (Ok tt,
     set_object None (entered ["standard"; "delete"; "1"] "delete" "empty" self),
     emit (Send "chan1"
             (response 405
                (detail ("Action " +:+ dquote +:+ "delete" +:+ dquote
                         +:+ " not allowed.")))) Tests.world).
Proof.
  intros c self. split; [reflexivity|].
  apply (unlisted_action_is_refused Tests.registry ["standard"; "delete"; "1"] "delete"
           None (Some "empty") "empty" self Tests.world "chan1");
    [reflexivity | reflexivity | reflexivity | by vm_compute | | by vm_compute].
  intros Hin. apply list_elem_of_singleton in Hin. discriminate Hin.
Defined.

Lemma failed_lookup_is_reported_witness :
  receive Tests.registry ["standard"; "update"; "7"] (Some "name=Ann") None
    Tests.standard Tests.world
  = (Ok tt, entered ["standard"; "update"; "7"] UPDATE "name=Ann" Tests.standard,
     emit (Send "chan1" (response 404 (detail "Not found."))) Tests.world)
  ∧ receive Tests.registry ["standard"; "delete"; "x"] (Some "empty") None
      Tests.standard Tests.world
    = (Ok tt, entered ["standard"; "delete"; "x"] DELETE "empty" Tests.standard,
       emit (Send "chan1"
               (response 400 (JList [JStr "The URL lookup value is invalid."])))
         Tests.world).
Proof.
  split.
  - apply (failed_lookup_is_reported Tests.registry ["standard"; "update"; "7"] UPDATE
             "7" (Some "name=Ann") None "name=Ann" Tests.standard Tests.world "chan1"
             ObjectDoesNotExist);
      [by left | reflexivity | reflexivity | reflexivity | reflexivity | reflexivity
      | reflexivity | reflexivity | by left].
  - apply (failed_lookup_is_reported Tests.registry ["standard"; "delete"; "x"] DELETE
             "x" (Some "empty") None "empty" Tests.standard Tests.world "chan1"
             ValueError);
      [by right | reflexivity | reflexivity | reflexivity | reflexivity | reflexivity
      | reflexivity | reflexivity | by right].
Defined.

(** ** Frames that cannot be routed to an action *)

(** X7: a frame for a registered stream is handed to its endpoint without a
    look at the rest of the path: when the path has no action segment the
    handler raises IndexError, and when the frame carries neither bytes nor
    text it raises AttributeError; in both cases nothing is sent to the
    client and the world stays as it is (an unregistered stream, by contrast,
    is answered 404). *)
Theorem unroutable_frame_raises
    (_registry : list ConsumerClass) (json_loads : string → option JVal)
    d text_data bytes_data w url s c
    (Hurl : APIDemultiplexer.message_url json_loads d text_data = Ok url)
    (Hs : url !! 0%nat = Some s)
    (Hc : APIDemultiplexer.lookup_consumer s (APIDemultiplexer._consumers d) = Some c) :
  (url !! 1%nat = None →
   APIDemultiplexer.receive _registry json_loads d text_data bytes_data w
   = (Raise IndexError,
      APIDemultiplexer.mkDemux (APIDemultiplexer.socket d)
        (APIDemultiplexer.store_consumer s (set_url url c)
           (APIDemultiplexer._consumers d)), w)) ∧
  (∀ a, url !! 1%nat = Some a →
        bytes_or_text bytes_data text_data = Raise AttributeError →
   APIDemultiplexer.receive _registry json_loads d text_data bytes_data w
   = (Raise AttributeError,
      APIDemultiplexer.mkDemux (APIDemultiplexer.socket d)
        (APIDemultiplexer.store_consumer s (set_action (Some a) (set_url url c))
           (APIDemultiplexer._consumers d)), w)).
Proof.
  split.
  - intros Hno. unfold APIDemultiplexer.receive. rewrite Hurl, Hs, Hc.
    unfold receive. rewrite bind_run. simpl. by rewrite Hno.
  - intros a Ha Hdata. unfold APIDemultiplexer.receive. rewrite Hurl, Hs, Hc.
    unfold receive. rewrite bind_run. simpl. rewrite Ha, bind_run. simpl.
    rewrite bind_run. simpl. by rewrite Hdata.
Qed.

Lemma unroutable_frame_raises_witness :
  let d := APIDemultiplexer.init Tests.registry None "standard" "chan1" in
  ∃ d', APIDemultiplexer.receive Tests.registry Tests.json_loads d None (Some "id=1")
          Tests.world
        = (Raise IndexError, d', Tests.world).
Proof.
  intros d. eexists.
  apply (unroutable_frame_raises Tests.registry Tests.json_loads d None (Some "id=1")
           Tests.world ["standard"] "standard" (init Tests.StandardConsumer
                                                 (Some (APIDemultiplexer.socket d)) true));
    reflexivity.
Defined.

(** ** Permissions of subscriptions and of deletions *)

Lemma for_each_check_permissions_denied objs self w :
  action self = Some SUBSCRIBE →
  (∀ obj, obj ∈ objs →
     forallb (answers (permission_request self "get") (Some obj))
       (get_permissions (view (cls self))) = true) →
  (∃ obj, obj ∈ objs ∧
     forallb (grants (permission_request self "get") (Some obj))
       (get_permissions (view (cls self))) = false) →
  for_each objs (λ obj, check_permissions (Some obj)) self w
  = (Raise PermissionDenied, self, w).
Proof.
  intros Ha. induction objs as [|o objs IH]; intros Hans (obj & Hin & Hno).
  - by apply elem_of_nil in Hin.
  - cbn [for_each]. rewrite bind_run.
    destruct (check_permissions_spec (Some o) self w SUBSCRIBE "get" [] Ha eq_refl)
      as (r & Hrun & Hok & Hden).
    rewrite Hrun.
    destruct (forallb (grants (permission_request self "get") (Some o))
                (get_permissions (view (cls self)))) eqn:Hg.
    + assert (r = Ok tt) as -> by (by apply Hok).
      apply IH.
      * intros o' Ho'. apply Hans. by apply list_elem_of_further.
      * apply elem_of_cons in Hin as [->|Hin]; [congruence|by exists obj].
    + rewrite Hden; [done| |done]. apply Hans, list_elem_of_here.
Qed.

Section Permissions.

Variable registry : list ConsumerClass.

(** X8: a subscribe message is all or nothing: when the permission objects
    all answer and one of them does not grant one of the objects the payload
    resolves to, the client gets one 403 response and the channel joins no
    group at all, not even those of the objects it may see; the endpoint's
    set of groups stays as it was. *)
Theorem subscription_is_all_or_nothing
    url text_data bytes_data d self w ch objs
    (Hurl : url !! 1%nat = Some SUBSCRIBE)
    (Hdata : bytes_or_text bytes_data text_data = Ok d)
    (Hch : consumer self = Some ch)
    (Hobjs : get_objects (entered url SUBSCRIBE d self) w
             = (Ok objs, entered url SUBSCRIBE d self, w))
    (Hanswer : ∀ obj, obj ∈ objs →
       forallb (answers (permission_request self "get") (Some obj))
         (get_permissions (view (cls self))) = true)
    (Hdenied : ∃ obj, obj ∈ objs ∧
       forallb (grants (permission_request self "get") (Some obj))
         (get_permissions (view (cls self))) = false) :
  receive registry url text_data bytes_data self w
  = (Ok tt, set_object None (entered url SUBSCRIBE d self),
     emit (Send ch (response 403
                      (detail "You do not have permission to perform this action.")))
       w).
Proof.
  apply (receive_refused registry url SUBSCRIBE text_data bytes_data d self w ch
           PermissionDenied); try done.
  change (action_allowed self SUBSCRIBE) with true. cbv iota.
  change (dispatch registry SUBSCRIBE) with subscribe.
  unfold subscribe. rewrite bind_run, Hobjs, bind_run.
  by rewrite (for_each_check_permissions_denied objs (entered url SUBSCRIBE d self) w).
Qed.

(** X9: the delete action asks no permission object: once the object is
    resolved, the row is deleted and 204 is sent even when a permission of
    the view refuses everything, while update, which checks the permissions
    before it validates, raises PermissionDenied for the same endpoint and
    leaves the table alone. *)
Theorem delete_asks_no_permission self w obj self1 ch payload
    (Hobj : get_object self w = (Ok (Some obj), self1, w))
    (Hstream : stream (cls self1) ≠ EmptyString)
    (Hch : consumer self1 = Some ch)
    (Hanswer : ∀ m o, forallb (answers (permission_request self1 m) o)
                        (get_permissions (view (cls self1))) = true)
    (Hrefuse : ∀ m o, forallb (grants (permission_request self1 m) o)
                        (get_permissions (view (cls self1))) = false)
    (Hparse : parse_payload (view (cls self1)) (data self1) = Ok payload) :
  (∃ w', delete registry self w = (Ok tt, self1, w') ∧
         rows w' = remove_row (pk obj) (rows w) ∧
         responses (new_events w w')
         = [(ch, response 204 (detail "deletion successful"))]) ∧
  (action self1 = Some UPDATE →
   update registry self w = (Raise PermissionDenied, self1, w)).
Proof.
  split.
  - unfold delete. rewrite bind_run, Hobj, bind_run. simpl. rewrite bind_run.
    rewrite (perform_destroy_suppressed registry (set_signal_broadcast obj false)
               self1 w eq_refl).
    rewrite bind_run, send_run, Hch.
    unfold group_send_post_delete. rewrite bind_run, get_group_name_run by done.
    rewrite group_send_run. eexists. split; [reflexivity|].
    split; [by rewrite rows_group_send|].
    rewrite (new_events_app w _
               (Send ch (response 204 (detail "deletion successful"))
                :: broadcast_events
                     (stream (cls self1) +:+ "-"
                      +:+ Py.format (pk (set_pk (set_pk (set_signal_broadcast obj false)
                                                   VNone) (pk obj))))
                     (broadcast_msg (action self1)
                        (JDict [("id", to_json (pk (set_pk (set_pk
                           (set_signal_broadcast obj false) VNone) (pk obj))))]))
                     (emit (Send ch (response 204 (detail "deletion successful")))
                        (mkWorld (remove_row (pk (set_signal_broadcast obj false))
                                    (rows w)) (next_pk w) (members w) (log w))))).
    + unfold broadcast_events. simpl. f_equal.
      induction (elements _) as [|c l IH]; [done|exact IH].
    + rewrite log_group_send, log_emit, <- app_assoc. done.
  - intros Ha. unfold update. rewrite bind_run, Hobj, bind_run. simpl.
    rewrite bind_run. unfold deserialize. rewrite bind_run, parse_run, Hparse, bind_run.
    destruct (check_permissions_spec (Some (set_signal_broadcast obj false)) self1 w
                UPDATE "put" ["patch"] Ha eq_refl) as (r & Hrun & _ & Hden).
    rewrite Hrun, (Hden (Hanswer _ _) (Hrefuse _ _)). done.
Qed.

End Permissions.

Lemma subscription_is_all_or_nothing_witness :
  let self := init Tests.PermissionConsumer (Some Tests.sock) true in
  let s := entered ["permissions"; "subscribe"] SUBSCRIBE "id=1" self in
  get_objects s Tests.world
  = (Ok [mkInstance (Model "APIModel") (VInt 1)
           [("name", JStr "Emily"); ("counter", JInt 2)] None], s, Tests.world)
  ∧ receive Tests.registry ["permissions"; "subscribe"] (Some "id=1") None self
      Tests.world
    = (Ok tt, set_object None s,
       emit (Send "chan1"
               (response 403
                  (detail "You do not have permission to perform this action.")))
         Tests.world).
Proof.
  intros self s. assert (get_objects s Tests.world
    = (Ok [mkInstance (Model "APIModel") (VInt 1)
             [("name", JStr "Emily"); ("counter", JInt 2)] None], s, Tests.world))
    as Hobjs by (by vm_compute).
  split; [exact Hobjs|].
  apply (subscription_is_all_or_nothing Tests.registry ["permissions"; "subscribe"]
           (Some "id=1") None "id=1" self Tests.world "chan1" _
           eq_refl eq_refl eq_refl Hobjs).
  - intros obj _. reflexivity.
  - eexists. split; [apply list_elem_of_here|reflexivity].
Defined.

Lemma delete_asks_no_permission_witness :
  let self := set_data "name=Ann"
                (set_url ["permissions"; "delete"; "1"]
                   (set_action (Some DELETE)
                      (init Tests.PermissionConsumer (Some Tests.sock) true))) in
  let obj := mkInstance (Model "APIModel") (VInt 1)
               [("name", JStr "Emily"); ("counter", JInt 2)] None in
  get_object self Tests.world = (Ok (Some obj), set_object (Some obj) self, Tests.world)
  ∧ ((∃ w', delete Tests.registry self Tests.world
            = (Ok tt, set_object (Some obj) self, w') ∧
            rows w' = remove_row (pk obj) (rows Tests.world) ∧
            responses (new_events Tests.world w')
            = [("chan1", response 204 (detail "deletion successful"))]) ∧
     (action (set_object (Some obj) self) = Some UPDATE →
      update Tests.registry self Tests.world
      = (Raise PermissionDenied, set_object (Some obj) self, Tests.world))).
Proof.
  intros self obj. split; [reflexivity|].
  apply (delete_asks_no_permission Tests.registry self Tests.world obj
           (set_object (Some obj) self) "chan1"
           (JDict [("name", JStr "Ann")])).
  - reflexivity.
  - by vm_compute.
  - reflexivity.
  - intros m o. reflexivity.
  - intros m o. reflexivity.
  - reflexivity.
Defined.

(** ** The filter of a subscription *)

Lemma filter_dict_foldl_lookup self items (m0 : gmap string JVal) k v :
  foldl (λ m kv,
      if bool_decide (kv.1 ∈ field_names (cls self))
         || bool_decide (kv.1 ∈ dom (subscription_field_mapping (cls self)))
      then <[default kv.1 (subscription_field_mapping (cls self) !! kv.1) := kv.2]> m
      else m) m0 items !! k = Some v →
  m0 !! k = Some v ∨
  ∃ k0, (k0, v) ∈ items ∧ criteria_name self k0 = true ∧
        k = default k0 (subscription_field_mapping (cls self) !! k0).
Proof.
  revert m0. induction items as [|[k1 v1] items IH]; intros m0; simpl.
  - by left.
  - intros [Hm|(k0 & Hin & Hname & Hk)]%IH.
    + fold (criteria_name self k1) in Hm.
      destruct (criteria_name self k1) eqn:Hc; [|by left].
      destruct (decide (default k1 (subscription_field_mapping (cls self) !! k1) = k))
        as [Hk|Hk].
      * rewrite Hk, lookup_insert_eq in Hm. injection Hm as ->.
        right. exists k1. split; [apply list_elem_of_here|done].
      * rewrite lookup_insert_ne in Hm by done. by left.
    + right. exists k0. split; [by apply list_elem_of_further|done].
Qed.

(** X10: every keyword the subscription filter is called with comes from a
    payload entry whose name is a serializer field or a key of the
    subscription field mapping, carries that entry's value, and is the
    mapped name when the mapping has one for the entry's name, the name
    itself otherwise; no other payload entry reaches the queryset. *)
Theorem filter_keywords_come_from_the_class self items k v
    (Hk : filter_dict self items !! k = Some v) :
  ∃ k0, (k0, v) ∈ items ∧
        (k0 ∈ field_names (cls self) ∨ k0 ∈ dom (subscription_field_mapping (cls self))) ∧
        k = default k0 (subscription_field_mapping (cls self) !! k0).
Proof.
  apply filter_dict_foldl_lookup in Hk as [Hk|(k0 & Hin & Hname & Hk)];
    [by rewrite lookup_empty in Hk|].
  exists k0. split; [done|]. split; [|done].
  unfold criteria_name in Hname. apply orb_true_iff in Hname as [H|H];
    apply bool_decide_eq_true in H; [by left|by right].
Qed.

Lemma filter_keywords_come_from_the_class_witness :
  let self := init Tests.MappingConsumer (Some Tests.sock) true in
  let items := [("counter_max", JInt 5); ("colour", JStr "red")] in
  filter_dict self items !! "counter__lte" = Some (JInt 5) ∧
  ∃ k0, (k0, JInt 5) ∈ items ∧
        (k0 ∈ field_names (cls self) ∨ k0 ∈ dom (subscription_field_mapping (cls self))) ∧
        "counter__lte" = default k0 (subscription_field_mapping (cls self) !! k0).
Proof.
  intros self items.
  assert (filter_dict self items !! "counter__lte" = Some (JInt 5)) as Hk
    by (by vm_compute).
  split; [exact Hk|].
  exact (filter_keywords_come_from_the_class self items "counter__lte" (JInt 5) Hk).
Defined.

(** ** Registration and routing *)







Lemma lookup_store_ne s s' c l :
  s' ≠ s →
  APIDemultiplexer.lookup_consumer s' (APIDemultiplexer.store_consumer s c l)
  = APIDemultiplexer.lookup_consumer s' l.
Proof.
  intros Hne. induction l as [|[s0 c0] l IH]; [done|]. simpl.
  destruct (String.eqb s s0) eqn:E; simpl.
  - apply String.eqb_eq in E as <-.
    by rewrite (proj2 (String.eqb_neq s' s) Hne).
  - by rewrite IH.
Qed.

Lemma fst_store_consumer s c l :
  (APIDemultiplexer.store_consumer s c l).*1 = l.*1.
Proof.
  induction l as [|[s0 c0] l IH]; [done|]. cbn [APIDemultiplexer.store_consumer].
  destruct (String.eqb s s0); [done|]. by rewrite !fmap_cons, IH.
Qed.

(** X13: a frame changes at most the endpoint of the stream it names: the
    connection's own socket record, the stream names of its endpoints and
    every endpoint under another stream name are after the frame what they
    were before, whatever the frame does. *)
Theorem frame_reaches_one_endpoint
    (_registry : list ConsumerClass) (json_loads : string → option JVal)
    d text_data bytes_data w r d' w'
    (Hrun : APIDemultiplexer.receive _registry json_loads d text_data bytes_data w
            = (r, d', w')) :
  APIDemultiplexer.socket d' = APIDemultiplexer.socket d ∧
  (APIDemultiplexer._consumers d').*1 = (APIDemultiplexer._consumers d).*1 ∧
  ∀ s', (∀ url, APIDemultiplexer.message_url json_loads d text_data = Ok url →
                url !! 0%nat ≠ Some s') →
        APIDemultiplexer.lookup_consumer s' (APIDemultiplexer._consumers d')
        = APIDemultiplexer.lookup_consumer s' (APIDemultiplexer._consumers d).
Proof.
  unfold APIDemultiplexer.receive in Hrun.
  destruct (APIDemultiplexer.message_url json_loads d text_data) as [url|e];
    [|by injection Hrun as <- <- <-].
  destruct (url !! 0%nat) as [s|] eqn:Hs; [|by injection Hrun as <- <- <-].
  destruct (APIDemultiplexer.lookup_consumer s (APIDemultiplexer._consumers d))
    as [c|]; [|by injection Hrun as <- <- <-].
  destruct (receive _registry url text_data bytes_data c w) as [[r0 c'] w0].
  injection Hrun as <- <- <-. simpl. split; [done|].
  split; [apply fst_store_consumer|].
  intros s' Hs'. apply lookup_store_ne. intros ->. by apply (Hs' url).
Qed.

Lemma frame_reaches_one_endpoint_witness :
  let d := APIDemultiplexer.init Tests.registry None "standard/subscribe/" "chan1" in
  let run := APIDemultiplexer.receive Tests.registry Tests.json_loads d None
               (Some "id=1") Tests.world in
  (groups <$> APIDemultiplexer.lookup_consumer "standard"
                (APIDemultiplexer._consumers run.1.2)) = Some {["standard-1"]} ∧
  (APIDemultiplexer.socket run.1.2 = APIDemultiplexer.socket d ∧
   (APIDemultiplexer._consumers run.1.2).*1 = (APIDemultiplexer._consumers d).*1 ∧
   ∀ s', (∀ url, APIDemultiplexer.message_url Tests.json_loads d None = Ok url →
                 url !! 0%nat ≠ Some s') →
         APIDemultiplexer.lookup_consumer s' (APIDemultiplexer._consumers run.1.2)
         = APIDemultiplexer.lookup_consumer s' (APIDemultiplexer._consumers d)).
Proof.
  intros d run. split; [by vm_compute|].
  apply (frame_reaches_one_endpoint Tests.registry Tests.json_loads d None
           (Some "id=1") Tests.world run.1.1 run.1.2 run.2).
  subst run. by destruct (APIDemultiplexer.receive _ _ _ _ _ _) as [[? ?] ?].
Defined.

(** ** Subscription actions and the table *)

Lemma next_pk_add_all ch l w : next_pk (add_all ch l w) = next_pk w.
Proof.
  revert w. induction l as [|g l IH]; intros w; [done|].
  by rewrite add_all_cons, IH.
Qed.

Lemma next_pk_discard_all ch l w : next_pk (discard_all ch l w) = next_pk w.
Proof.
  revert w. induction l as [|g l IH]; intros w; [done|].
  by rewrite discard_all_cons, IH.
Qed.

Lemma quiet_refl ch w : quiet ch w w.
Proof. split; [done|]. split; [done|]. exists []. by rewrite app_nil_r. Qed.

Lemma quiet_send ch v w w' : quiet ch w w' → quiet ch w (emit (Send ch v) w').
Proof.
  intros (Hr & Hn & l & Hl & HF). split; [done|]. split; [done|].
  exists (l ++ [Send ch v])%list. split.
  - by rewrite log_emit, Hl, app_assoc.
  - apply Forall_app. split; [done|]. by constructor.
Qed.

Lemma quiet_add_all ch l w : quiet ch w (add_all ch l w).
Proof.
  split; [apply rows_add_all|]. split; [apply next_pk_add_all|].
  exists ((λ g, GroupAdd g ch) <$> l). split; [apply log_add_all|].
  apply Forall_fmap, Forall_forall. by intros g _.
Qed.

Lemma quiet_discard_all ch l w : quiet ch w (discard_all ch l w).
Proof.
  split; [apply rows_discard_all|]. split; [apply next_pk_discard_all|].
  exists ((λ g, GroupDiscard g ch) <$> l). split; [apply log_discard_all|].
  apply Forall_fmap, Forall_forall. by intros g _.
Qed.

Lemma broadcasts_subscription_events ch l :
  Forall (subscription_event ch) l → broadcasts l = [].
Proof. induction 1 as [|[] l He _ IH]; simpl in *; done. Qed.

Lemma delivered_to_subscription_events ch c l :
  Forall (subscription_event ch) l → delivered_to c l = [].
Proof. induction 1 as [|[] l He _ IH]; simpl in *; done. Qed.

Lemma responses_subscription_events ch l c v :
  Forall (subscription_event ch) l → (c, v) ∈ responses l → c = ch.
Proof.
  induction 1 as [|e l He _ IH]; [by intros ?%elem_of_nil|].
  destruct e; simpl in *; try done.
  intros [[= -> ->]|Hin]%elem_of_cons; [done|by apply IH].
Qed.

Lemma joins_subscription_events ch l g c :
  Forall (subscription_event ch) l → (g, c) ∈ joins l → c = ch.
Proof.
  induction 1 as [|e l He _ IH]; [by intros ?%elem_of_nil|].
  destruct e; simpl in *; try done.
  intros [[= -> ->]|Hin]%elem_of_cons; [done|by apply IH].
Qed.

Lemma leaves_subscription_events ch l g c :
  Forall (subscription_event ch) l → (g, c) ∈ leaves l → c = ch.
Proof.
  induction 1 as [|e l He _ IH]; [by intros ?%elem_of_nil|].
  destruct e; simpl in *; try done.
  intros [[= -> ->]|Hin]%elem_of_cons; [done|by apply IH].
Qed.

Section Subscriptions.

Variable registry : list ConsumerClass.

Lemma subscription_run a self w r self' w' ch :
  a = SUBSCRIBE ∨ a = UNSUBSCRIBE →
  consumer self = Some ch →
  dispatch registry a self w = (r, self', w') →
  quiet ch w w'.
Proof.
  intros [-> | ->] Hch.
  - change (dispatch registry SUBSCRIBE) with subscribe.
    destruct (subscribe_run self w) as [[e He]|(objs & G & ch' & Hobjs & Hperm & HG & Hch')].
    + rewrite He. intros [= <- <- <-]. apply quiet_refl.
    + assert (ch' = ch) as -> by congruence.
      rewrite (subscribe_ok self w objs G ch Hobjs Hperm HG Hch).
      intros [= <- <- <-]. apply quiet_send, quiet_add_all.
  - change (dispatch registry UNSUBSCRIBE) with unsubscribe.
    destruct (unsubscribe_run self w ch Hch) as [[e He]|(objs & G & Hobjs & HG)].
    + rewrite He. intros [= <- <- <-]. apply quiet_refl.
    + rewrite (unsubscribe_ok self w objs G ch Hobjs HG Hch).
      intros [= <- <- <-]. apply quiet_send, quiet_discard_all.
Qed.

(** X14: whatever a subscribe or unsubscribe message does, it leaves the
    table and its id sequence alone, publishes nothing to any group, and
    calls the channel layer and writes frames for no channel but the
    requester's. *)
Theorem subscription_actions_leave_the_table
    url a text_data bytes_data self w r self' w' ch
    (Ha : a = SUBSCRIBE ∨ a = UNSUBSCRIBE)
    (Hurl : url !! 1%nat = Some a)
    (Hch : consumer self = Some ch)
    (Hrun : receive registry url text_data bytes_data self w = (r, self', w')) :
  rows w' = rows w ∧
  next_pk w' = next_pk w ∧
  broadcasts (new_events w w') = [] ∧
  (∀ c, delivered_to c (new_events w w') = []) ∧
  (∀ g c, (g, c) ∈ joins (new_events w w') ∨ (g, c) ∈ leaves (new_events w w') →
          c = ch) ∧
  (∀ c v, (c, v) ∈ responses (new_events w w') → c = ch).
Proof.
  assert (quiet ch w w') as (Hr & Hn & l & Hl & HF).
  { destruct (bytes_or_text bytes_data text_data) as [d|e] eqn:Hdata.
    2:{ unfold receive in Hrun. rewrite bind_run in Hrun. simpl in Hrun.
        rewrite Hurl, bind_run in Hrun. simpl in Hrun.
        rewrite bind_run in Hrun. simpl in Hrun.
        rewrite Hdata, bind_run in Hrun. simpl in Hrun.
        injection Hrun as <- <- <-. apply quiet_refl. }
    destruct (if action_allowed self a then dispatch registry a (entered url a d self) w
              else (Raise (not_allowed a), entered url a d self, w))
      as [[r0 s2] w2] eqn:Hbody.
    assert (consumer s2 = Some ch ∧ quiet ch w w2) as [Hch2 Hq].
    { destruct (action_allowed self a).
      - split.
        + destruct (dispatch_tracks registry a (entered url a d self) w r0 s2 w2 ch
                      Hch Hbody) as [Hs2 _].
          change (consumer (set_object None s2) = Some ch). by rewrite Hs2.
        + by apply (subscription_run a (entered url a d self) w r0 s2).
      - injection Hbody as <- <- <-. split; [done|apply quiet_refl]. }
    destruct (receive_run_state registry url a text_data bytes_data d self w r0 s2 w2
                r self' w' ch Hurl Hdata Hbody Hch2 Hrun) as [_ [->|[v ->]]];
      [done|by apply quiet_send]. }
  rewrite (new_events_app _ _ _ Hl).
  split; [done|]. split; [done|].
  split; [by apply (broadcasts_subscription_events ch)|].
  split; [intros c; by apply (delivered_to_subscription_events ch)|].
  split.
  - intros g c [Hin|Hin].
    + by apply (joins_subscription_events ch l g).
    + by apply (leaves_subscription_events ch l g).
  - intros c v. by apply responses_subscription_events.
Qed.

(** X15: unsubscribing with the payload of a successful subscribe undoes it:
    the same objects and groups are computed again, the channel is in none
    of these groups afterwards, every other group has the members it had
    before the subscribe, the table is untouched, and an endpoint that held
    none of the groups before is back in the state it started from. *)
Theorem unsubscribe_undoes_subscribe self w ch s1 w1
    (Hch : consumer self = Some ch)
    (Hsub : subscribe self w = (Ok tt, s1, w1)) :
  ∃ G w2,
    groups s1 = groups self ∪ G ∧
    unsubscribe s1 w1 = (Ok tt, set_groups (groups self ∖ G) self, w2) ∧
    (∀ g, g ∈ G → group_members g w2 = group_members g w ∖ {[ch]}) ∧
    (∀ g, g ∉ G → group_members g w2 = group_members g w) ∧
    rows w2 = rows w ∧
    (groups self ## G → set_groups (groups self ∖ G) self = self).
Proof.
  destruct (subscribe_run self w) as [[e He]|(objs & G & ch' & Hobjs & Hperm & HG & Hch')].
  { rewrite He in Hsub. discriminate Hsub. }
  assert (ch' = ch) as -> by congruence.
  rewrite (subscribe_ok self w objs G ch Hobjs Hperm HG Hch) in Hsub.
  injection Hsub as <- <-.
  set (s1 := set_groups (groups self ∪ G) self).
  set (w1 := emit (Send ch (response 200 (detail "subscription successful")))
               (add_all ch (elements (G ∖ groups self)) w)).
  assert (get_objects s1 w1 = (Ok objs, s1, w1)) as Hobjs1.
  { apply (readonly_transport get_objects self w s1 w1 (Ok objs)
             readonly_get_objects Hobjs).
    apply get_objects_ext; [done|done|]. symmetry. apply rows_add_all. }
  assert (get_group_names objs s1 w1 = (Ok G, s1, w1)) as HG1.
  { apply (readonly_transport (get_group_names objs) self w s1 w1 (Ok G)
             (readonly_get_group_names objs) HG).
    by apply get_group_names_ext. }
  exists G. eexists. split; [done|].
  rewrite (unsubscribe_ok s1 w1 objs G ch Hobjs1 HG1 Hch).
  assert ((groups self ∪ G) ∖ G = groups self ∖ G) as HGG by set_solver.
  split; [subst s1; simpl; by rewrite HGG|].
  split; [|split; [|split]].
  - intros g Hg. rewrite group_members_emit, group_members_discard_all.
    rewrite decide_True by (by apply elem_of_elements).
    subst w1. rewrite group_members_emit, group_members_add_all.
    destruct (decide (g ∈ elements (G ∖ groups self))); set_solver.
  - intros g Hg. rewrite group_members_emit, group_members_discard_all.
    rewrite decide_False by (by rewrite elem_of_elements).
    subst w1. rewrite group_members_emit, group_members_add_all.
    rewrite decide_False; [done|]. rewrite elem_of_elements. set_solver.
  - etrans; [apply (rows_discard_all ch (elements G) w1)|].
    apply (rows_add_all ch (elements (G ∖ groups self)) w).
  - intros Hdisj. assert (groups self ∖ G = groups self) as -> by set_solver.
    apply set_groups_id.
Qed.

(** X16: when create is left to a view whose perform_create does not return
    the saved instance, the row is written and the client is told 201
    'creation successful', and only then the assertion of
    group_send_post_create fails: nothing is published, and the exception is
    none the view turns into a response, so it leaves the handler. *)
Theorem perform_create_must_hand_back_the_instance self w ch s
    (Hdes : deserialize None false self w = (Ok s, self, w))
    (Hib : immediate_broadcast self = true)
    (Hview : "perform_create" ∉ _ignore_view self)
    (Hret : view_perform_create (view (cls self)) ≠ OverriddenReturns)
    (Hch : consumer self = Some ch) :
  let e := AssertionError "'perform_create' should return the saved instance." in
  create registry self w
  = (Raise e, self,
     emit (Send ch (response 201 (detail "creation successful")))
       (mkWorld (rows w ++ [(VInt (next_pk w), validated_data s)]) (next_pk w + 1)
          (members w) (log w))) ∧
  view_handle_exception e = None.
Proof.
  split; [|done].
  destruct (deserialize_ok None false self w s self w Hdes)
    as (_ & _ & Hinst & Hmodel).
  assert (save registry s self w
          = (Ok (mkInstance (ser_model s) (VInt (next_pk w)) (validated_data s) None),
             self,
             mkWorld (rows w ++ [(VInt (next_pk w), validated_data s)]) (next_pk w + 1)
               (members w) (log w))) as Hsave.
  { unfold save. rewrite Hinst, Hmodel. unfold serializer_model. rewrite Hib.
    apply objects_create_suppressed. }
  unfold create. rewrite bind_run, Hdes, bind_run.
  unfold perform_create. rewrite bind_run. simpl.
  rewrite bool_decide_eq_false_2 by done.
  destruct (view_perform_create (view (cls self))); [|done|];
    rewrite bind_run, Hsave; simpl; rewrite bind_run, send_run, Hch; done.
Qed.

End Subscriptions.

Lemma subscription_actions_leave_the_table_witness :
  let run := receive Tests.registry ["standard"; "subscribe"] (Some "id=1") None
               Tests.standard Tests.world in
  joins (new_events Tests.world run.2) = [("standard-1", "chan1")] ∧
  (rows run.2 = rows Tests.world ∧
   next_pk run.2 = next_pk Tests.world ∧
   broadcasts (new_events Tests.world run.2) = [] ∧
   (∀ c, delivered_to c (new_events Tests.world run.2) = []) ∧
   (∀ g c, (g, c) ∈ joins (new_events Tests.world run.2)
           ∨ (g, c) ∈ leaves (new_events Tests.world run.2) → c = "chan1") ∧
   (∀ c v, (c, v) ∈ responses (new_events Tests.world run.2) → c = "chan1")).
Proof.
  intros run. split; [by vm_compute|].
  apply (subscription_actions_leave_the_table Tests.registry ["standard"; "subscribe"]
           SUBSCRIBE (Some "id=1") None Tests.standard Tests.world run.1.1 run.1.2);
    [by left | reflexivity | reflexivity |
     subst run; by destruct (receive _ _ _ _ _ _) as [[? ?] ?]].
Defined.

Lemma unsubscribe_undoes_subscribe_witness :
  let s := set_data "id=1" (set_action (Some SUBSCRIBE) Tests.standard) in
  let run := subscribe s Tests.world in
  run.1.1 = Ok tt ∧
  ∃ G w2,
    groups run.1.2 = groups s ∪ G ∧
    unsubscribe run.1.2 run.2 = (Ok tt, set_groups (groups s ∖ G) s, w2) ∧
    (∀ g, g ∈ G → group_members g w2 = group_members g Tests.world ∖ {["chan1"]}) ∧
    (∀ g, g ∉ G → group_members g w2 = group_members g Tests.world) ∧
    rows w2 = rows Tests.world ∧
    (groups s ## G → set_groups (groups s ∖ G) s = s).
Proof.
  intros s run. assert (run.1.1 = Ok tt) as Hr by (by vm_compute).
  split; [exact Hr|].
  apply (unsubscribe_undoes_subscribe s Tests.world "chan1" run.1.2 run.2);
    [reflexivity|].
  rewrite <- Hr. subst run. by destruct (subscribe _ _) as [[? ?] ?].
Defined.

Lemma perform_create_must_hand_back_the_instance_witness :
  let v := mkView "APIModel" "APIModel"
             (λ a, bool_decide (a ∈ ["create"; "update"; "destroy"]))
             Tests.queryset_get Tests.queryset_filter [] Tests.validate
             Tests.to_representation Tests.parse_payload
             OverriddenNoReturn NotOverridden NotOverridden in
  let c := mkClass v "standard" None [] "pk" ∅ ["id"; "name"; "counter"] in
  let self := entered ["standard"; "create"] CREATE "name=Ann,counter=7"
                (init c (Some Tests.sock) true) in
  _ignore_view self = ["perform_update"; "perform_destroy"] ∧
  create Tests.registry self Tests.world
  = (Raise (AssertionError "'perform_create' should return the saved instance."),
     self,
     emit (Send "chan1" (response 201 (detail "creation successful")))
       (mkWorld (rows Tests.world
                 ++ [(VInt 2, [("name", JStr "Ann"); ("counter", JInt 7)])])
          3 (members Tests.world) (log Tests.world))) ∧
  view_handle_exception
    (AssertionError "'perform_create' should return the saved instance.") = None.
Proof.
  intros v c self. split; [reflexivity|].
  apply (perform_create_must_hand_back_the_instance Tests.registry self Tests.world
           "chan1"
           (mkSerializer None [("name", JStr "Ann"); ("counter", JInt 7)]
              (ImmediateBroadcast "APIModel"))).
  - reflexivity.
  - reflexivity.
  - intros Hin. apply elem_of_cons in Hin as [Hin|Hin]; [discriminate Hin|].
    apply list_elem_of_singleton in Hin. discriminate Hin.
  - intros Hret. discriminate Hret.
  - reflexivity.
Defined.

(** ** Configuration of an endpoint *)

Lemma foldl_collect (f : string → bool) (l : list string) (s0 : gset string) m :
  m ∈ foldl (λ s method, if f method then s ∪ {[method]} else s) s0 l
  ↔ m ∈ s0 ∨ (m ∈ l ∧ f m = true).
Proof.
  revert s0. induction l as [|x l IH]; intros s0; simpl.
  - split; [by left|]. by intros [?|[?%elem_of_nil _]].
  - rewrite IH, elem_of_cons. clear IH. destruct (f x) eqn:Hx.
    + rewrite elem_of_union, elem_of_singleton. split.
      * intros [[?| ->]|[? ?]]; auto.
      * intros [?|[[ ->|?] ?]]; auto.
    + split.
      * intros [?|[? ?]]; auto.
      * intros [?|[[ ->|?] ?]]; [auto|congruence|auto].
Qed.

(** X17: the methods an endpoint performs itself rather than through its
    view are exactly those of perform_create, perform_update and
    perform_destroy that the consumer class overrides or the view class does
    not override; for a consumer class that overrides none of them this is
    what the endpoint's constructor stores. *)
Theorem own_methods_are_those_the_view_keeps
    (in_consumer in_view : string → bool) (c : ConsumerClass) m :
  (m ∈ Configuration.discover_perform_methods in_consumer in_view
   ↔ m ∈ Configuration.check_methods ∧ (in_consumer m = true ∨ in_view m = false)) ∧
  (m ∈ discover_perform_methods c
   ↔ m ∈ Configuration.discover_perform_methods (λ _, false)
           (Configuration.view_overrides (view c))).
Proof.
  assert (∀ ic iv x,
            x ∈ Configuration.discover_perform_methods ic iv
            ↔ x ∈ Configuration.check_methods ∧ (ic x = true ∨ iv x = false)) as Hspec.
  { intros ic iv x. unfold Configuration.discover_perform_methods.
    rewrite elem_of_union, !foldl_collect, elem_of_elements, elem_of_difference,
      elem_of_list_to_set, foldl_collect, negb_true_iff.
    destruct (ic x) eqn:Hic; set_unfold; naive_solver. }
  split; [apply Hspec|].
  rewrite Hspec. unfold discover_perform_methods, Configuration.view_overrides,
    Configuration.check_methods.
  destruct (view_perform_create (view c)), (view_perform_update (view c)),
    (view_perform_destroy (view c)); simpl;
    (split;
     [ intros Hm; set_unfold in Hm; split; [set_unfold; naive_solver|];
       right; (repeat destruct Hm as [->|Hm]); done
     | intros [Hm [Hf|Hf]]; [done|]; set_unfold in Hm; set_unfold;
       (repeat destruct Hm as [->|Hm]); simpl in Hf; try done; naive_solver ]).
Qed.

(** X18: get_json_version returns the first of the view's renderers (or
    parsers) whose media type is application/json, skipping those before it,
    and raises ImproperlyConfigured exactly when none has that media type. *)
Theorem json_version_is_the_first {A} (media_type : A → string) (objs : list A) :
  match Configuration.get_json_version media_type objs with
  | Ok obj =>
      ∃ l1 l2, objs = (l1 ++ obj :: l2)%list ∧
               media_type obj = "application/json" ∧
               Forall (λ x, media_type x ≠ "application/json") l1
  | Raise e =>
      e = OtherError "ImproperlyConfigured" ∧
      Forall (λ x, media_type x ≠ "application/json") objs
  end.
Proof.
  induction objs as [|x objs IH]; simpl; [done|].
  destruct (String.eqb (media_type x) "application/json") eqn:E.
  - apply String.eqb_eq in E. by exists [], objs.
  - apply String.eqb_neq in E.
    destruct (Configuration.get_json_version media_type objs) as [obj|e].
    + destruct IH as (l1 & l2 & -> & Hobj & Hl1).
      exists (x :: l1), l2. split; [done|]. split; [done|]. by constructor.
    + destruct IH as [-> Hall]. split; [done|]. by constructor.
Qed.

(** ** Closing the connections of a user *)





(** X20: within one stream, the group names of two objects with integer
    primary keys are equal only when the keys are: a subscriber of one
    object is in the group of no other object of the stream. *)
Theorem group_names_tell_keys_apart self w i j n m g
    (Hi : pk i = VInt n)
    (Hj : pk j = VInt m)
    (Hgi : get_group_name i self w = (Ok g, self, w))
    (Hgj : get_group_name j self w = (Ok g, self, w)) :
  n = m.
Proof.
  unfold get_group_name in Hgi, Hgj. rewrite bind_run in Hgi, Hgj.
  simpl in Hgi, Hgj. destruct (String.eqb _ _); [done|].
  injection Hgi as <-. injection Hgj as Heq. rewrite Hi, Hj in Heq.
  apply String.app_inj, String.app_inj in Heq. simpl in Heq.
  by apply pretty_Z_inj in Heq.
Qed.

Lemma group_names_tell_keys_apart_witness :
  let s := Tests.standard in
  let i := mkInstance (Model "APIModel") (VInt 1) [] None in
  get_group_name i s Tests.world = (Ok "standard-1", s, Tests.world) ∧ 1%Z = 1%Z.
Proof.
  intros s i. assert (get_group_name i s Tests.world = (Ok "standard-1", s, Tests.world))
    as Hg by (by vm_compute).
  split; [exact Hg|].
  exact (group_names_tell_keys_apart s Tests.world i i 1 1 "standard-1"
           eq_refl eq_refl Hg Hg).
Defined.

(** ** realtime_api/testing.py *)

Lemma cookie_index_spec headers :
  match Testing.cookie_index headers with
  | Some index =>
      ∃ l1 old l2, headers = (l1 ++ ("cookie", old) :: l2)%list ∧
                   length l1 = index ∧
                   Forall (λ h, h.1 ≠ "cookie") l1
  | None => Forall (λ h, h.1 ≠ "cookie") headers
  end.
Proof.
  induction headers as [|[k v] headers IH]; simpl; [done|].
  destruct (String.eqb k "cookie") eqn:E.
  - apply String.eqb_eq in E as ->. by exists [], v, headers.
  - apply String.eqb_neq in E.
    destruct (Testing.cookie_index headers) as [index|]; simpl.
    + destruct IH as (l1 & old & l2 & -> & <- & Hl1).
      exists ((k, v) :: l1), old, l2. split; [done|]. split; [done|]. by constructor.
    + by constructor.
Qed.

(** X21: a communicator made for a user always hands on a cookie header that
    starts with the session cookie: the first cookie header the caller gave
    is kept behind it, separated by a semicolon, and when there is none the
    header is appended; every other header is handed on unchanged and in
    order.  Without a user the headers are handed on as given. *)
Theorem communicator_headers_carry_the_session session headers :
  Testing.communicator_headers None headers = headers ∧
  ∃ hs, Testing.communicator_headers (Some session) headers = Some hs ∧
    (∃ l1 l2,
       Forall (λ h, h.1 ≠ "cookie") l1 ∧
       ((default [] headers = (l1 ++ l2)%list ∧ l2 = [] ∧
         hs = (l1 ++ [("cookie", session)])%list) ∨
        (∃ old l3, l2 = ("cookie", old) :: l3 ∧
           default [] headers = (l1 ++ l2)%list ∧
           hs = (l1 ++ ("cookie", session +:+ "; " +:+ old) :: l3)%list))).
Proof.
  split; [done|]. unfold Testing.communicator_headers.
  destruct headers as [[|h hs]|].
  - eexists. split; [done|]. exists [], []. split; [done|]. by left.
  - pose proof (cookie_index_spec (h :: hs)) as Hspec.
    destruct (Testing.cookie_index (h :: hs)) as [index|].
    + destruct Hspec as (l1 & old & l2 & Heq & <- & Hl1).
      eexists. split; [done|]. exists l1, (("cookie", old) :: l2).
      split; [done|]. right. exists old, l2. split; [done|]. split; [done|].
      rewrite Heq.
      replace (length l1) with (length l1 + 0)%nat by lia.
      rewrite insert_app_r. simpl. do 3 f_equal.
      rewrite lookup_app_r by lia.
      replace (length l1 + 0 - length l1)%nat with 0%nat by lia. done.
    + eexists. split; [done|]. exists (h :: hs), []. split; [done|]. left.
      simpl. by rewrite app_nil_r.
  - eexists. split; [done|]. exists [], []. split; [done|]. by left.
Qed.

(** ** Payloads that cannot be used *)

Section Payloads.

Variable registry : list ConsumerClass.

Lemma receive_escapes url a text_data bytes_data d self w e :
  url !! 1%nat = Some a →
  bytes_or_text bytes_data text_data = Ok d →
  (if action_allowed self a then dispatch registry a (entered url a d self) w
   else (Raise (not_allowed a), entered url a d self, w))
  = (Raise e, entered url a d self, w) →
  view_handle_exception e = None →
  receive registry url text_data bytes_data self w
  = (Raise e, set_object None (entered url a d self), w).
Proof.
  intros Hurl Hdata Hbody Hview.
  by rewrite (receive_run registry url a text_data bytes_data d self w _ _ _
                Hurl Hdata Hbody), Hview.
Qed.

Lemma subscription_fails_with_get_objects a self w e :
  a = SUBSCRIBE ∨ a = UNSUBSCRIBE →
  get_objects self w = (Raise e, self, w) →
  dispatch registry a self w = (Raise e, self, w).
Proof.
  intros [-> | ->] Hget.
  - change (dispatch registry SUBSCRIBE) with subscribe.
    unfold subscribe. by rewrite bind_run, Hget.
  - change (dispatch registry UNSUBSCRIBE) with unsubscribe.
    unfold unsubscribe. by rewrite bind_run, Hget.
Qed.

Lemma subscription_always_allowed a self :
  a = SUBSCRIBE ∨ a = UNSUBSCRIBE → action_allowed self a = true.
Proof. by intros [-> | ->]. Qed.

(** X22: a subscribe or unsubscribe message whose criteria the queryset
    rejects as values is answered 400 with the text 'The lookup value is
    invalid.' and does nothing else; one whose payload is not an object (or
    is missing, so that the parser hands back None) makes the handler raise
    AttributeError, with no response to the client. *)
Theorem unusable_criteria url a text_data bytes_data d self w ch payload
    (Ha : a = SUBSCRIBE ∨ a = UNSUBSCRIBE)
    (Hurl : url !! 1%nat = Some a)
    (Hdata : bytes_or_text bytes_data text_data = Ok d)
    (Hch : consumer self = Some ch)
    (Hparse : parse_payload (view (cls self)) d = Ok payload) :
  (∀ items,
     payload = JDict items →
     filter_dict self items ≠ ∅ →
     queryset_filter (view (cls self)) (filter_dict self items) (rows w)
     = Raise ValueError →
     receive registry url text_data bytes_data self w
     = (Ok tt, set_object None (entered url a d self),
        emit (Send ch (response 400 (JList [JStr "The lookup value is invalid."])))
          w)) ∧
  ((∀ items, payload ≠ JDict items) →
   receive registry url text_data bytes_data self w
   = (Raise AttributeError, set_object None (entered url a d self), w)).
Proof.
  split.
  - intros items -> Hne Hfilter.
    apply (receive_refused registry url a text_data bytes_data d self w ch
             (ValidationError (JList [JStr "The lookup value is invalid."])));
      try done.
    rewrite (subscription_always_allowed a self Ha).
    apply subscription_fails_with_get_objects; [done|].
    unfold get_objects. rewrite bind_run, parse_run.
    change (parse_payload (view (cls (entered url a d self)))
              (data (entered url a d self)))
      with (parse_payload (view (cls self)) d).
    rewrite Hparse, bind_run. simpl. rewrite bind_run. simpl. rewrite bind_run. simpl.
    change (filter_dict (entered url a d self) items) with (filter_dict self items).
    rewrite bool_decide_eq_false_2.
    + change (cls (entered url a d self)) with (cls self). by rewrite Hfilter.
    + intros Hsize. apply Hne. by apply map_size_empty_iff.
  - intros Hnot.
    apply (receive_escapes url a text_data bytes_data d self w AttributeError);
      try done.
    rewrite (subscription_always_allowed a self Ha).
    apply subscription_fails_with_get_objects; [done|].
    unfold get_objects. rewrite bind_run, parse_run.
    change (parse_payload (view (cls (entered url a d self)))
              (data (entered url a d self)))
      with (parse_payload (view (cls self)) d).
    rewrite Hparse, bind_run.
    destruct payload as [|b|z|s|l|items]; try done. by destruct (Hnot items).
Qed.

(** X23: a payload the parser cannot read is answered 400 with the parser's
    message by subscribe, unsubscribe and create alike, and that response is
    all that happens; for create the parser runs before the permission
    check, so a client without permission gets the parse error too. *)
Theorem unreadable_payload_is_reported url a text_data bytes_data d self w ch msg
    (Ha : a = SUBSCRIBE ∨ a = UNSUBSCRIBE ∨ a = CREATE)
    (Hurl : url !! 1%nat = Some a)
    (Hdata : bytes_or_text bytes_data text_data = Ok d)
    (Hch : consumer self = Some ch)
    (Hallowed : action_allowed self a = true)
    (Hparse : parse_payload (view (cls self)) d = Raise (ParseError msg)) :
  receive registry url text_data bytes_data self w
  = (Ok tt, set_object None (entered url a d self),
     emit (Send ch (response 400 (detail msg))) w).
Proof.
  apply (receive_refused registry url a text_data bytes_data d self w ch
           (ParseError msg)); try done.
  rewrite Hallowed.
  assert (parse (entered url a d self) w
          = (Raise (ParseError msg), entered url a d self, w)) as Hp.
  { rewrite parse_run.
    change (parse_payload (view (cls (entered url a d self)))
              (data (entered url a d self)))
      with (parse_payload (view (cls self)) d).
    by rewrite Hparse. }
  destruct Ha as [-> | [-> | ->]].
  - apply subscription_fails_with_get_objects; [by left|].
    unfold get_objects. by rewrite bind_run, Hp.
  - apply subscription_fails_with_get_objects; [by right|].
    unfold get_objects. by rewrite bind_run, Hp.
  - change (dispatch registry CREATE) with (create registry).
    unfold create, deserialize. by rewrite bind_run, bind_run, Hp.
Qed.

End Payloads.

Lemma unusable_criteria_witness :
  receive Tests.registry ["standard"; "subscribe"] (Some "counter=text") None
    Tests.standard Tests.world
  = (Ok tt,
     set_object None
       (entered ["standard"; "subscribe"] SUBSCRIBE "counter=text" Tests.standard),
     emit (Send "chan1" (response 400 (JList [JStr "The lookup value is invalid."])))
       Tests.world).
Proof.
  apply (proj1 (unusable_criteria Tests.registry ["standard"; "subscribe"] SUBSCRIBE
                  (Some "counter=text") None "counter=text" Tests.standard Tests.world
                  "chan1" (JDict [("counter", JStr "text")])
                  (or_introl eq_refl) eq_refl eq_refl eq_refl eq_refl)
           [("counter", JStr "text")]).
  - reflexivity.
  - by vm_compute.
  - by vm_compute.
Defined.

Lemma unreadable_payload_is_reported_witness :
  let self := init Tests.PermissionConsumer (Some Tests.sock) true in
  (check_permissions None (entered ["permissions"; "create"] CREATE "{" self)
     Tests.world).1.1 = Raise PermissionDenied ∧
  receive Tests.registry ["permissions"; "create"] (Some "{") None self Tests.world
  = (Ok tt, set_object None (entered ["permissions"; "create"] CREATE "{" self),
     emit (Send "chan1" (response 400 (detail "JSON parse error"))) Tests.world).
Proof.
  intros self. split; [reflexivity|].
  apply (unreadable_payload_is_reported Tests.registry ["permissions"; "create"] CREATE
           (Some "{") None "{" self Tests.world "chan1" "JSON parse error");
    [right; right; reflexivity | reflexivity | reflexivity | reflexivity | reflexivity
    | reflexivity].
Defined.
